(** * The song-play data lake ETL ([etl.py]): model and properties

    [etl.py] is a PySpark job.  [process_song_data] projects the song
    catalog into the [songs] and [artists] tables; [process_log_data]
    filters the event log to [NextSong] events, projects [users],
    decomposes the event timestamp into the [time] table and joins the
    events with [songs] and [time] into [songplays].

    A DataFrame is modelled as the list of its rows (a bag: Spark fixes no
    row order).  JSON columns are nullable, so they are [option]s; SQL
    comparison with a null is never true, grouping treats nulls as equal.
    [dropDuplicates] keeps one row of every class of equal rows.  Where the
    partitions of a DataFrame matter, for [monotonically_increasing_id], the
    engine's choice of partitions and of row order is a parameter.

    The library functions are those of Spark 2 (the job loads hadoop-aws
    2.7.0), with the Python worker and the Spark session in one time zone, so
    that the wall clock [utcfromtimestamp] returns is the one [hour],
    [dayofmonth], ... read back.  The model covers the runs that complete:
    the schema has the columns the job names, the timestamps are within
    Python's [datetime] range, and reads and writes of the bucket succeed. *)

From stdpp Require Import base decidable option list sorting strings numbers gmap.

Local Open Scope Z_scope.

(** ** Column types *)

(** A [DoubleType] value, carried as its binary64 bit pattern: the job only
    copies these columns and groups on them. *)
Definition double : Type := Z.

(** A [TimestampType] value: microseconds since 1970-01-01T00:00:00. *)
Definition timestamp : Type := Z.

(** ** Calendar functions of [pyspark.sql.functions] *)

Module Calendar.

Definition MICROS_PER_SECOND : Z := 1000000.
Definition MICROS_PER_HOUR : Z := 3600 * MICROS_PER_SECOND.
Definition MICROS_PER_DAY : Z := 24 * MICROS_PER_HOUR.
Definition DAYS_PER_ERA : Z := 146097.

(** Days since 1970-01-01 of the instant. *)
Definition epoch_day (t : timestamp) : Z := t `div` MICROS_PER_DAY.

(** Day within the 400-year era that starts on a 1 March, and the era. *)
Definition era_of (d : Z) : Z := (d + 719468) `div` DAYS_PER_ERA.
Definition doe_of (d : Z) : Z := (d + 719468) `mod` DAYS_PER_ERA.

Definition yoe_of (doe : Z) : Z :=
  (doe - doe `div` 1460 + doe `div` 36524 - doe `div` 146096) `div` 365.
Definition doy_of (doe : Z) : Z :=
  let yoe := yoe_of doe in
  doe - (365 * yoe + yoe `div` 4 - yoe `div` 100).
(** Month counted from March = 0. *)
Definition mp_of (doe : Z) : Z := (5 * doy_of doe + 2) `div` 153.

Definition month_of_day (d : Z) : Z :=
  let mp := mp_of (doe_of d) in
  if bool_decide (mp < 10) then mp + 3 else mp - 9.
Definition dayofmonth_of_day (d : Z) : Z :=
  let doe := doe_of d in
  doy_of doe - (153 * mp_of doe + 2) `div` 5 + 1.
Definition year_of_day (d : Z) : Z :=
  yoe_of (doe_of d) + era_of d * 400
  + (if bool_decide (month_of_day d ≤ 2) then 1 else 0).

(** Proleptic Gregorian date to days since 1970-01-01. *)
Definition days_from_civil (y m d : Z) : Z :=
  let y' := if bool_decide (m ≤ 2) then y - 1 else y in
  let era := y' `div` 400 in
  let yoe := y' `mod` 400 in
  let mp := if bool_decide (m ≤ 2) then m + 9 else m - 3 in
  let doy := (153 * mp + 2) `div` 5 + d - 1 in
  era * DAYS_PER_ERA + (yoe * 365 + yoe `div` 4 - yoe `div` 100 + doy) - 719468.

(** ISO-8601 day of the week: 1 = Monday .. 7 = Sunday. *)
Definition isoweekday_of_day (d : Z) : Z := (d + 3) `mod` 7 + 1.

(** ISO-8601 week: the week of a day is the week of its Thursday, numbered
    within the year of that Thursday. *)
Definition isoweek_of_day (d : Z) : Z :=
  let thursday := d - isoweekday_of_day d + 4 in
  (thursday - days_from_civil (year_of_day thursday) 1 1) `div` 7 + 1.

(** [hour], [dayofmonth], [weekofyear], [month], [year]. *)
Definition hour (t : timestamp) : Z := (t `mod` MICROS_PER_DAY) `div` MICROS_PER_HOUR.
Definition dayofmonth (t : timestamp) : Z := dayofmonth_of_day (epoch_day t).
Definition weekofyear (t : timestamp) : Z := isoweek_of_day (epoch_day t).
Definition month (t : timestamp) : Z := month_of_day (epoch_day t).
Definition year (t : timestamp) : Z := year_of_day (epoch_day t).

(** [date_format(_, "u")]: the day number of the week of
    [java.text.SimpleDateFormat], 1 = Monday .. 7 = Sunday, as text. *)
Definition digit (n : Z) : string :=
  match n with
  | 1 => "1" | 2 => "2" | 3 => "3" | 4 => "4" | 5 => "5" | 6 => "6" | 7 => "7"
  | _ => "0"
  end%string.
Definition date_format_u (t : timestamp) : string :=
  digit (isoweekday_of_day (epoch_day t)).

End Calendar.

(** ** Rows of the input sources and of the tables *)

(** A record of [song_data], as [spark.read.json] presents it. *)
Module Catalog.
Record t : Type := mk {
  song_id : option string;
  title : option string;
  artist_id : option string;
  artist_name : option string;
  artist_location : option string;
  artist_latitude : option double;
  artist_longitude : option double;
  year : option Z;
  duration : option double
}.
End Catalog.

Module Songs.
Record t : Type := mk {
  song_id : option string;
  title : option string;
  artist_id : option string;
  year : option Z;
  duration : option double
}.
#[global] Instance songs_eq_dec : EqDecision t.
Proof. solve_decision. Defined.
End Songs.

Module Artists.
Record t : Type := mk {
  artist_id : option string;
  artist_name : option string;
  artist_location : option string;
  artist_latitude : option double;
  artist_longitude : option double
}.
#[global] Instance artists_eq_dec : EqDecision t.
Proof. solve_decision. Defined.
End Artists.

(** A record of [log_data]; only the columns the job names.  [ts] is the
    epoch time in milliseconds: the UDF [get_timestamp] raises on a null
    [ts] and aborts the run, so the rows of a completed run carry one. *)
Module Event.
Record t : Type := mk {
  page : option string;
  userId : option string;
  firstName : option string;
  lastName : option string;
  gender : option string;
  level : option string;
  song : option string;
  ts : Z;
  sessionId : option Z;
  location : option string;
  userAgent : option string
}.
#[global] Instance event_eq_dec : EqDecision t.
Proof. solve_decision. Defined.
End Event.

Module Users.
Record t : Type := mk {
  userId : option string;
  firstName : option string;
  lastName : option string;
  gender : option string;
  level : option string
}.
#[global] Instance users_eq_dec : EqDecision t.
Proof. solve_decision. Defined.
End Users.

Module Time.
Record t : Type := mk {
  start_time : timestamp;
  hour : Z;
  day : Z;
  week : Z;
  month : Z;
  year : Z;
  weekday : string
}.
#[global] Instance time_eq_dec : EqDecision t.
Proof. solve_decision. Defined.
End Time.

(** A row of [df] after the [withColumn] calls: the event and its seven
    calendar columns. *)
Module Log.
Record t : Type := mk {
  event : Event.t;
  cal : Time.t
}.
#[global] Instance log_eq_dec : EqDecision t.
Proof. solve_decision. Defined.
End Log.

(** A row of [songplays_table] after the first [select] (line 96). *)
Module Play.
Record t : Type := mk {
  songplay_id : Z;
  start_time : timestamp;
  userId : option string;
  level : option string;
  song_id : option string;
  artist_id : option string;
  sessionId : option Z;
  location : option string;
  userAgent : option string
}.
#[global] Instance play_eq_dec : EqDecision t.
Proof. solve_decision. Defined.
End Play.

(** A row of the final [songplays_table] (line 100). *)
Module Songplays.
Record t : Type := mk {
  songplay_id : Z;
  start_time : timestamp;
  year : Z;
  month : Z;
  userId : option string;
  level : option string;
  song_id : option string;
  artist_id : option string;
  sessionId : option Z;
  location : option string;
  userAgent : option string
}.
#[global] Instance songplays_eq_dec : EqDecision t.
Proof. solve_decision. Defined.
End Songplays.

(** The output bucket: one directory per table.  Every write is
    [mode="overwrite"]; [spark.read.parquet] returns what was written. *)
Module Lake.
Record t : Type := mk {
  songs : list Songs.t;
  artists : list Artists.t;
  users : list Users.t;
  time : list Time.t;
  songplays : list Songplays.t
}.
Definition empty : t := mk [] [] [] [] [].
End Lake.

(** ** DataFrame operations *)

(** [a == b] of two nullable columns, used as a condition: a comparison
    with a null is not true. *)
Definition sql_eq `{EqDecision A} (a b : option A) : bool :=
  match a, b with
  | Some x, Some y => bool_decide (x = y)
  | _, _ => false
  end.

Definition dropDuplicates `{EqDecision A} (df : list A) : list A := remove_dups df.

(** A 64-bit signed [Long]. *)
Definition wrap64 (z : Z) : Z := (z + 2 ^ 63) `mod` 2 ^ 64 - 2 ^ 63.

(** [monotonically_increasing_id()]: the partition index in the upper bits,
    the count of the row within its partition in the lower 33 bits. *)
Definition monotonically_increasing_id (partitionIndex count : nat) : Z :=
  wrap64 (wrap64 (Z.of_nat partitionIndex ≪ 33) + Z.of_nat count).

(** The rows of a partitioned DataFrame, each with its id. *)
Definition with_ids {A} (parts : list (list A)) : list (Z * A) :=
  mjoin (imap (λ p rows, imap (λ i r, (monotonically_increasing_id p i, r)) rows) parts).

(** ** [process_song_data] *)

Definition select_songs (r : Catalog.t) : Songs.t :=
  Songs.mk (Catalog.song_id r) (Catalog.title r) (Catalog.artist_id r)
           (Catalog.year r) (Catalog.duration r).

Definition select_artists (r : Catalog.t) : Artists.t :=
  Artists.mk (Catalog.artist_id r) (Catalog.artist_name r) (Catalog.artist_location r)
             (Catalog.artist_latitude r) (Catalog.artist_longitude r).

Definition songs_table (df : list Catalog.t) : list Songs.t :=
  dropDuplicates (select_songs <$> df).

Definition artists_table (df : list Catalog.t) : list Artists.t :=
  dropDuplicates (select_artists <$> df).

Definition process_song_data (song_data : list Catalog.t) (out : Lake.t) : Lake.t :=
  let df := song_data in
  let out := Lake.mk (songs_table df) (Lake.artists out) (Lake.users out)
                     (Lake.time out) (Lake.songplays out) in
  Lake.mk (Lake.songs out) (artists_table df) (Lake.users out)
          (Lake.time out) (Lake.songplays out).

(** ** [process_log_data] *)

(** [df.filter(df.page == 'NextSong')] *)
Definition filter_page (df : list Event.t) : list Event.t :=
  filter (λ e, sql_eq (Event.page e) (Some "NextSong"%string)) df.

Definition select_users (e : Event.t) : Users.t :=
  Users.mk (Event.userId e) (Event.firstName e) (Event.lastName e)
           (Event.gender e) (Event.level e).

Definition users_table (df : list Event.t) : list Users.t :=
  dropDuplicates (select_users <$> df).

(** [datetime.utcfromtimestamp(int(x)/1000)]: the UTC wall clock of the
    instant [x] ms after the epoch, kept to the millisecond. *)
Definition get_timestamp (x : Z) : timestamp := x * 1000.

(** The seven calendar columns of a start time (lines 79-84). *)
Definition calendar_columns (start_time : timestamp) : Time.t :=
  Time.mk start_time
          (Calendar.hour start_time)
          (Calendar.dayofmonth start_time)
          (Calendar.weekofyear start_time)
          (Calendar.month start_time)
          (Calendar.year start_time)
          (Calendar.date_format_u start_time).

(** The TimeDecomposer: from the raw [ts] to the calendar columns. *)
Definition decompose (raw_ts : Z) : Time.t := calendar_columns (get_timestamp raw_ts).

Definition with_time_columns (e : Event.t) : Log.t :=
  Log.mk e (decompose (Event.ts e)).

Definition time_table (df : list Log.t) : list Time.t :=
  dropDuplicates (Log.cal <$> df).

(** [df.join(song_df, df.song == song_df.title, how='left')]: an event row
    beside each songs row it matches, or beside nulls when it matches none. *)
Definition matching_songs (song_df : list Songs.t) (e : Log.t) : list Songs.t :=
  filter (λ s, sql_eq (Event.song (Log.event e)) (Songs.title s)) song_df.

Definition left_join_row (song_df : list Songs.t) (e : Log.t) : list (Log.t * option Songs.t) :=
  match matching_songs song_df e with
  | [] => [(e, None)]
  | ms => (λ s, (e, Some s)) <$> ms
  end.

Definition left_join (df : list Log.t) (song_df : list Songs.t) : list (Log.t * option Songs.t) :=
  df ≫= left_join_row song_df.

(** The [select] of line 96 on one joined row with its id. *)
Definition select_play (ir : Z * (Log.t * option Songs.t)) : Play.t :=
  let '(id, (e, s)) := ir in
  Play.mk id
          (Time.start_time (Log.cal e))
          (Event.userId (Log.event e))
          (Event.level (Log.event e))
          (s ≫= Songs.song_id)
          (s ≫= Songs.artist_id)
          (Event.sessionId (Log.event e))
          (Event.location (Log.event e))
          (Event.userAgent (Log.event e)).

(** The [select] of line 101 on a joined pair. *)
Definition select_songplay (p : Play.t) (t : Time.t) : Songplays.t :=
  Songplays.mk (Play.songplay_id p) (Play.start_time p) (Time.year t) (Time.month t)
               (Play.userId p) (Play.level p) (Play.song_id p) (Play.artist_id p)
               (Play.sessionId p) (Play.location p) (Play.userAgent p).

(** [songplays_table.join(time_table, ..., how="inner")] with its [select]. *)
Definition calendar_join (plays : list Play.t) (time_table : list Time.t) : list Songplays.t :=
  plays ≫= λ p,
    select_songplay p <$> filter (λ t, Play.start_time p = Time.start_time t) time_table.

(** Lines 100-102: the calendar join, the select and [drop_duplicates]. *)
Definition add_year_month (plays : list Play.t) (time_table : list Time.t) : list Songplays.t :=
  dropDuplicates (calendar_join plays time_table).

(** The engine decides in which partitions, and in which order within them,
    the rows of a join result are produced; [layout] is that decision. *)
Definition Layout : Type :=
  list (Log.t * option Songs.t) → list (list (Log.t * option Songs.t)).

Section Engine.
Variable layout : Layout.

(** [df] after the filter and the [withColumn] calls (lines 66-84). *)
Definition log_df (log_data : list Event.t) : list Log.t :=
  with_time_columns <$> filter_page log_data.

(** [songplays_table] of line 96. *)
Definition plays_table (df : list Log.t) (song_df : list Songs.t) : list Play.t :=
  select_play <$> with_ids (layout (left_join df song_df)).

(** [songplays_table] of line 100. *)
Definition songplays_table (df : list Log.t) (song_df : list Songs.t) : list Songplays.t :=
  add_year_month (plays_table df song_df) (time_table df).

Definition process_log_data (log_data : list Event.t) (out : Lake.t) : Lake.t :=
  let df := filter_page log_data in
  let out := Lake.mk (Lake.songs out) (Lake.artists out) (users_table df)
                     (Lake.time out) (Lake.songplays out) in
  let df := with_time_columns <$> df in
  let out := Lake.mk (Lake.songs out) (Lake.artists out) (Lake.users out)
                     (time_table df) (Lake.songplays out) in
  let song_df := Lake.songs out in
  Lake.mk (Lake.songs out) (Lake.artists out) (Lake.users out) (Lake.time out)
          (songplays_table df song_df).

(** [main]: the catalog first, then the log, on the same bucket. *)
Definition main (song_data : list Catalog.t) (log_data : list Event.t) (out : Lake.t) : Lake.t :=
  process_log_data log_data (process_song_data song_data out).

End Engine.

(** Two layouts an engine may choose. *)
Definition single_partition : Layout := λ rows, [rows].
Definition partition_per_row : Layout := λ rows, (λ r, [r]) <$> rows.

(** Spark's operating range for [monotonically_increasing_id]: fewer than
    2^30 partitions, fewer than 2^33 rows in each. *)
Definition in_id_range {A} (parts : list (list A)) : Prop :=
  Z.of_nat (length parts) ≤ 2 ^ 30 ∧ Forall (λ p, Z.of_nat (length p) ≤ 2 ^ 33) parts.

(** ** Relations between rows, used to state the properties *)

(** The row of line 96 that a songplays row continues: its columns without
    [year] and [month]. *)
Definition play_of (r : Songplays.t) : Play.t :=
  Play.mk (Songplays.songplay_id r) (Songplays.start_time r) (Songplays.userId r)
          (Songplays.level r) (Songplays.song_id r) (Songplays.artist_id r)
          (Songplays.sessionId r) (Songplays.location r) (Songplays.userAgent r).

(** The songplays row of a row of line 96 when the calendar columns are
    those of its own start time. *)
Definition attach (p : Play.t) : Songplays.t :=
  select_songplay p (calendar_columns (Play.start_time p)).

(** The columns a songplays row takes from its event. *)
Definition from_event (e : Event.t) (r : Songplays.t) : Prop :=
  Songplays.start_time r = get_timestamp (Event.ts e)
  ∧ Songplays.userId r = Event.userId e
  ∧ Songplays.level r = Event.level e
  ∧ Songplays.sessionId r = Event.sessionId e
  ∧ Songplays.location r = Event.location e
  ∧ Songplays.userAgent r = Event.userAgent e.

(** The join condition [df.song == song_df.title] holds. *)
Definition title_matches (e : Event.t) (s : Songs.t) : Prop :=
  ∃ t, Event.song e = Some t ∧ Songs.title s = Some t.

(** All columns of a songplays row but [songplay_id]. *)
Definition content (r : Songplays.t) :
    timestamp * Z * Z * option string * option string * option string
    * option string * option Z * option string * option string :=
  (Songplays.start_time r, Songplays.year r, Songplays.month r, Songplays.userId r,
   Songplays.level r, Songplays.song_id r, Songplays.artist_id r,
   Songplays.sessionId r, Songplays.location r, Songplays.userAgent r).

(** The calendar columns of a row of [df] are those of its [start_time]. *)
Definition well_timed (r : Log.t) : Prop :=
  Log.cal r = calendar_columns (Time.start_time (Log.cal r)).

(** ** The job on the two buckets *)

(** A record of [log_data] as the JSON reader gives it: [ts] may be null. *)
Module RawEvent.
Record t : Type := mk {
  page : option string;
  userId : option string;
  firstName : option string;
  lastName : option string;
  gender : option string;
  level : option string;
  song : option string;
  ts : option Z;
  sessionId : option Z;
  location : option string;
  userAgent : option string
}.
End RawEvent.

(** The paths, the reads and the writes of [process_song_data],
    [process_log_data] and [main], with the points where a run aborts. *)
Module Job.
Local Open Scope string_scope.

(** [b.startswith('/')] and [path.endswith('/')] *)
Definition startswith_sep (b : string) : bool :=
  match b with
  | EmptyString => false
  | String c _ => bool_decide (String c "" = "/")
  end.

Fixpoint endswith_sep (path : string) : bool :=
  match path with
  | EmptyString => false
  | String c EmptyString => bool_decide (String c "" = "/")
  | String _ rest => endswith_sep rest
  end.

(** [os.path.join(a, b)] of [posixpath]. *)
Definition os_path_join (a b : string) : string :=
  if startswith_sep b then b
  else if bool_decide (a = "") || endswith_sep a then a +:+ b
  else a +:+ "/" +:+ b.

(** What a directory of the output bucket holds. *)
Inductive table : Type :=
  | SongsTable (rows : list Songs.t)
  | ArtistsTable (rows : list Artists.t)
  | UsersTable (rows : list Users.t)
  | TimeTable (rows : list Time.t)
  | SongplaysTable (rows : list Songplays.t).

Abbreviation bucket := (gmap string table).

(** The input bucket: the records under each path. *)
Record source : Type := mk_source {
  song_files : gmap string (list Catalog.t);
  log_files : gmap string (list RawEvent.t)
}.

(** Why a run aborts: the path read is not there; there is no schema to
    infer or a column the job names is missing; the Python function of
    [get_timestamp] raised. *)
Inductive error : Type :=
  | PathDoesNotExist (path : string)
  | SchemaError
  | UdfRaised.

(** A run ends with all its writes done, or aborts with the writes done so
    far. *)
Inductive outcome : Type :=
  | Done (b : bucket)
  | Aborted (e : error) (b : bucket).

Definition bucket_of (o : outcome) : bucket :=
  match o with
  | Done b => b
  | Aborted _ b => b
  end.

(** Lines 28-50.  A path without records gives a DataFrame without columns,
    and the [select] fails before anything is written. *)
Definition process_song_data (src : source) (input_data output_data : string)
    (b : bucket) : outcome :=
  let song_data := input_data +:+ "song_data/A/A/A/" in
  match song_files src !! song_data with
  | None => Aborted (PathDoesNotExist song_data) b
  | Some [] => Aborted SchemaError b
  | Some df =>
      let b := <[output_data +:+ "songs/" := SongsTable (songs_table df)]> b in
      let b := <[output_data +:+ "artists/" := ArtistsTable (artists_table df)]> b in
      Done b
  end.

Definition filter_page (df : list RawEvent.t) : list RawEvent.t :=
  filter (λ e, sql_eq (RawEvent.page e) (Some "NextSong")) df.

Definition select_users (e : RawEvent.t) : Users.t :=
  Users.mk (RawEvent.userId e) (RawEvent.firstName e) (RawEvent.lastName e)
           (RawEvent.gender e) (RawEvent.level e).

(** [datetime.MINYEAR] and [datetime.MAXYEAR] *)
Definition MINYEAR : Z := 1.
Definition MAXYEAR : Z := 9999.

(** The row once [get_timestamp] has been applied to its [ts]: [int(None)]
    raises, and so does [utcfromtimestamp] on an instant whose year is not
    one of [datetime]. *)
Definition with_ts (e : RawEvent.t) : option Event.t :=
  x ← RawEvent.ts e;
  if bool_decide (MINYEAR ≤ Calendar.year (get_timestamp x) ≤ MAXYEAR)%Z
  then Some (Event.mk (RawEvent.page e) (RawEvent.userId e) (RawEvent.firstName e)
                      (RawEvent.lastName e) (RawEvent.gender e) (RawEvent.level e)
                      (RawEvent.song e) x (RawEvent.sessionId e)
                      (RawEvent.location e) (RawEvent.userAgent e))
  else None.

Section Engine.
Variable layout : Layout.

(** Lines 53-105.  Spark evaluates lazily: [get_timestamp] first runs when
    the time table is written, after the users table.  [read.parquet] fails
    on a path that is not there; a directory that holds no rows of a songs
    table gives no [title] column to join on. *)
Definition process_log_data (src : source) (input_data output_data : string)
    (b : bucket) : outcome :=
  let log_data := input_data +:+ "log_data/2018/11/2018-11-12-events.json" in
  match log_files src !! log_data with
  | None => Aborted (PathDoesNotExist log_data) b
  | Some [] => Aborted SchemaError b
  | Some df =>
      let df := filter_page df in
      let b := <[os_path_join output_data "users/"
                 := UsersTable (dropDuplicates (select_users <$> df))]> b in
      match mapM with_ts df with
      | None => Aborted UdfRaised b
      | Some df =>
          let df := with_time_columns <$> df in
          let b := <[os_path_join output_data "time/" := TimeTable (time_table df)]> b in
          let songs := os_path_join output_data "songs/" in
          match b !! songs with
          | None => Aborted (PathDoesNotExist songs) b
          | Some (SongsTable (s :: rows)) =>
              let song_df := s :: rows in
              Done (<[os_path_join output_data "songplays/"
                      := SongplaysTable (songplays_table layout df song_df)]> b)
          | Some _ => Aborted SchemaError b
          end
      end
  end.

Definition input_data : string := "s3a://udacity-dend/".
Definition output_data : string := "s3a://udacity-data-lake-adam-klus/".

Definition main (src : source) (b : bucket) : outcome :=
  match process_song_data src input_data output_data b with
  | Aborted e b => Aborted e b
  | Done b => process_log_data src input_data output_data b
  end.

End Engine.

End Job.

(** ** Sample inputs *)

Module Sample.
Local Open Scope string_scope.

Definition song_S1 : Catalog.t :=
  Catalog.mk (Some "S1") (Some "Test Song") (Some "A1") (Some "Test Artist")
             None None None (Some 2018) (Some 4641240889646363443).

(** The same song in a second catalog file, with another duration. *)
Definition song_S1_again : Catalog.t :=
  Catalog.mk (Some "S1") (Some "Test Song") (Some "A1") (Some "Test Artist")
             None None None (Some 2018) (Some 4641240889646363444).

(** A catalog record whose [song_id] is null. *)
Definition song_without_id : Catalog.t :=
  Catalog.mk None (Some "Test Song") (Some "A1") (Some "Test Artist")
             None None None (Some 2018) (Some 4641240889646363443).

Definition song_S2 : Catalog.t :=
  Catalog.mk (Some "S2") (Some "Second Song") (Some "A2") (Some "Second Artist")
             None None None (Some 2004) (Some 4640537203540230144).

Definition event_10 : Event.t :=
  Event.mk (Some "NextSong") (Some "10") (Some "Sylvie") (Some "Cruz") (Some "F")
           (Some "free") (Some "Test Song") 1541990258796 (Some 9%Z)
           (Some "Washington") (Some "Mozilla").

(** A later play of a song the catalog does not have. *)
Definition event_26 : Event.t :=
  Event.mk (Some "NextSong") (Some "26") (Some "Ryan") (Some "Smith") (Some "M")
           (Some "free") (Some "Other Song") 1542000000000 (Some 11%Z)
           (Some "San Jose") (Some "Mozilla").

Definition event_home : Event.t :=
  Event.mk (Some "Home") (Some "10") (Some "Sylvie") (Some "Cruz") (Some "F")
           (Some "free") None 1541990000000 (Some 9%Z)
           (Some "Washington") (Some "Mozilla").

End Sample.

(** Sample buckets. *)
Module SampleJob.
Local Open Scope string_scope.

Definition raw (e : Event.t) (ts : option Z) : RawEvent.t :=
  RawEvent.mk (Event.page e) (Event.userId e) (Event.firstName e) (Event.lastName e)
              (Event.gender e) (Event.level e) (Event.song e) ts
              (Event.sessionId e) (Event.location e) (Event.userAgent e).

Definition catalog : list Catalog.t := [Sample.song_S1; Sample.song_S2].

(** A "Home" event without [ts] and two plays. *)
Definition log : list RawEvent.t :=
  [raw Sample.event_home None;
   raw Sample.event_10 (Some 1541990258796);
   raw Sample.event_26 (Some 1542000000000)].

(** The same log with the [ts] of the second play missing. *)
Definition log_null_ts : list RawEvent.t :=
  [raw Sample.event_home None;
   raw Sample.event_10 (Some 1541990258796);
   raw Sample.event_26 None].

Definition source_at (input_data : string) (log : list RawEvent.t) : Job.source :=
  Job.mk_source
    {[ input_data +:+ "song_data/A/A/A/" := catalog ]}
    {[ input_data +:+ "log_data/2018/11/2018-11-12-events.json" := log ]}.

End SampleJob.

(** ** The calendar functions *)

Module CalendarFacts.
Import Calendar.

Lemma era_doe d :
  d + 719468 = era_of d * DAYS_PER_ERA + doe_of d ∧ 0 ≤ doe_of d < DAYS_PER_ERA.
Proof. unfold era_of, doe_of, DAYS_PER_ERA. Z.div_mod_to_equations. lia. Qed.

Lemma yoe_doy_range doe :
  0 ≤ doe < DAYS_PER_ERA →
  0 ≤ yoe_of doe ≤ 399 ∧ 0 ≤ doy_of doe ≤ 365.
Proof.
  unfold DAYS_PER_ERA, doy_of, yoe_of. intros H.
  Z.div_mod_to_equations. lia.
Qed.

Lemma mp_range doe : 0 ≤ doy_of doe ≤ 365 → 0 ≤ mp_of doe ≤ 11.
Proof. unfold mp_of. intros H. Z.div_mod_to_equations. lia. Qed.

Lemma month_of_day_range d : 1 ≤ month_of_day d ≤ 12.
Proof.
  destruct (era_doe d) as [_ Hdoe].
  destruct (yoe_doy_range _ Hdoe) as [_ Hdoy].
  pose proof (mp_range _ Hdoy). unfold month_of_day.
  case_bool_decide; lia.
Qed.

Lemma dayofmonth_of_day_range d : 1 ≤ dayofmonth_of_day d ≤ 31.
Proof.
  destruct (era_doe d) as [_ Hdoe].
  destruct (yoe_doy_range _ Hdoe) as [_ Hdoy].
  unfold dayofmonth_of_day, mp_of. cbv zeta.
  generalize dependent (doy_of (doe_of d)). intros doy Hdoy.
  Z.div_mod_to_equations. lia.
Qed.

(** The day, split as the algorithm does. *)
Lemma day_split d :
  ∃ era yoe doy,
    era_of d = era ∧ yoe_of (doe_of d) = yoe ∧ doy_of (doe_of d) = doy ∧
    0 ≤ yoe ≤ 399 ∧ 0 ≤ doy ≤ 365 ∧
    d + 719468 = era * 146097 + (365 * yoe + yoe `div` 4 - yoe `div` 100) + doy.
Proof.
  destruct (era_doe d) as [Hd Hdoe].
  destruct (yoe_doy_range _ Hdoe) as [Hyoe Hdoy].
  exists (era_of d), (yoe_of (doe_of d)), (doy_of (doe_of d)).
  unfold DAYS_PER_ERA in Hd. unfold doy_of in *. repeat split; lia.
Qed.

Lemma days_from_civil_of_day d :
  days_from_civil (year_of_day d) (month_of_day d) (dayofmonth_of_day d) = d.
Proof.
  destruct (day_split d) as (era & yoe & doy & He & Hy & Hdy & Hyoe & Hdoy & Hd).
  unfold days_from_civil, year_of_day, dayofmonth_of_day, month_of_day, mp_of, DAYS_PER_ERA.
  cbv zeta. rewrite He, Hy, Hdy.
  repeat case_bool_decide; Z.div_mod_to_equations; lia.
Qed.

Lemma year_start_bound d :
  0 ≤ d - days_from_civil (year_of_day d) 1 1 ≤ 365.
Proof.
  destruct (day_split d) as (era & yoe & doy & He & Hy & Hdy & Hyoe & Hdoy & Hd).
  unfold days_from_civil, year_of_day, month_of_day, mp_of, DAYS_PER_ERA.
  cbv zeta. rewrite He, Hy, Hdy.
  rewrite (bool_decide_eq_true_2 (1 ≤ 2)) by lia.
  repeat case_bool_decide; Z.div_mod_to_equations; lia.
Qed.

Lemma isoweekday_of_day_range d : 1 ≤ isoweekday_of_day d ≤ 7.
Proof. unfold isoweekday_of_day. Z.div_mod_to_equations. lia. Qed.

(** 1970-01-05, day 4, was a Monday: the day [isoweekday - 1] days back is
    a whole number of weeks away from it. *)
Lemma isoweekday_of_day_monday d :
  (d - (isoweekday_of_day d - 1) - 4) `mod` 7 = 0.
Proof. unfold isoweekday_of_day. Z.div_mod_to_equations. lia. Qed.

Lemma isoweek_of_day_range d : 1 ≤ isoweek_of_day d ≤ 53.
Proof.
  unfold isoweek_of_day. cbv zeta.
  pose proof (year_start_bound (d - isoweekday_of_day d + 4)).
  Z.div_mod_to_equations. lia.
Qed.

Lemma days_from_civil_jan4 y : days_from_civil y 1 4 = days_from_civil y 1 1 + 3.
Proof. unfold days_from_civil. cbv zeta. lia. Qed.

(** Week 1 of an ISO year is the week of its 4 January; the week of a day
    is counted from the Monday of that week 1. *)
Lemma isoweek_of_day_spec d :
  ∃ y, let jan4 := days_from_civil y 1 4 in
    d - (isoweekday_of_day d - 1)
    = jan4 - (isoweekday_of_day jan4 - 1) + 7 * (isoweek_of_day d - 1).
Proof.
  exists (year_of_day (d - isoweekday_of_day d + 4)). cbv zeta.
  rewrite days_from_civil_jan4. unfold isoweek_of_day. cbv zeta.
  pose proof (year_start_bound (d - isoweekday_of_day d + 4)) as Hb.
  generalize dependent (days_from_civil (year_of_day (d - isoweekday_of_day d + 4)) 1 1).
  intros j Hb. unfold isoweekday_of_day in *.
  Z.div_mod_to_equations. lia.
Qed.

Lemma hour_range t : 0 ≤ hour t ≤ 23.
Proof.
  unfold hour, MICROS_PER_DAY, MICROS_PER_HOUR, MICROS_PER_SECOND.
  Z.div_mod_to_equations. lia.
Qed.

(** The wall clock is the UTC one: the hour of the civil date contains the
    instant. *)
Lemma hour_of_date_contains t :
  let date := days_from_civil (year t) (month t) (dayofmonth t) in
  (date * 24 + hour t) * MICROS_PER_HOUR ≤ t < (date * 24 + hour t + 1) * MICROS_PER_HOUR.
Proof.
  unfold year, month, dayofmonth. cbv zeta. rewrite days_from_civil_of_day.
  unfold hour, epoch_day, MICROS_PER_DAY, MICROS_PER_HOUR, MICROS_PER_SECOND.
  Z.div_mod_to_equations. lia.
Qed.

End CalendarFacts.

(** ** Lists as bags *)

Section ListFacts.
Context {A : Type}.
Implicit Types l : list A.

Lemma remove_dups_NoDup `{EqDecision A} l : NoDup l → remove_dups l = l.
Proof.
  induction 1 as [|x l Hx Hl IH]; simpl; [done|].
  case_decide; [done|]. by rewrite IH.
Qed.

Lemma remove_dups_Permutation `{EqDecision A} l k :
  l ≡ₚ k → remove_dups l ≡ₚ remove_dups k.
Proof.
  intros Hlk. apply NoDup_Permutation; try apply NoDup_remove_dups.
  intros x. by rewrite !elem_of_remove_dups, Hlk.
Qed.

(** A filter that selects one row of a table without duplicates. *)
Lemma filter_unique (P : A → Prop) `{∀ x, Decision (P x)} l x :
  NoDup l → x ∈ l → P x → (∀ y, y ∈ l → P y → y = x) → filter P l = [x].
Proof.
  induction 1 as [|y l Hy Hl IH]; intros Hx HP Huniq; [by apply elem_of_nil in Hx|].
  apply elem_of_cons in Hx as [->|Hx].
  - rewrite filter_cons_True by done. f_equal.
    apply elem_of_nil_inv. intros z [HPz Hz]%list_elem_of_filter.
    apply Hy. by rewrite <- (Huniq z) by (by right || done).
  - rewrite filter_cons_False.
    + apply IH; [done..|]. intros z Hz. apply Huniq. by right.
    + intros HPy. apply Hy. by rewrite (Huniq y) by (by left || done).
Qed.

(** A column without duplicates identifies the row. *)
Lemma NoDup_fmap_eq {B} (f : A → B) l x y :
  NoDup (f <$> l) → x ∈ l → y ∈ l → f x = f y → x = y.
Proof.
  induction l as [|z l IH]; intros Hnd Hx Hy Hf; [by apply elem_of_nil in Hx|].
  rewrite fmap_cons in Hnd. apply list.NoDup_cons in Hnd as [Hz Hnd].
  apply elem_of_cons in Hx as [->|Hx], Hy as [->|Hy]; [done|..].
  - destruct Hz. rewrite Hf. by apply list_elem_of_fmap_2.
  - destruct Hz. rewrite <- Hf. by apply list_elem_of_fmap_2.
  - by apply IH.
Qed.

Lemma StronglySorted_lt_NoDup (l : list Z) : StronglySorted Z.lt l → NoDup l.
Proof.
  induction 1 as [|x l Hl IH Hx]; constructor; [|done].
  intros Hin. rewrite list.Forall_forall in Hx. specialize (Hx _ Hin). lia.
Qed.

End ListFacts.

(** ** Row identifiers *)

Section Ids.
Context {A : Type}.
Implicit Types parts : list (list A).

Lemma wrap64_small z : - 2 ^ 63 ≤ z < 2 ^ 63 → wrap64 z = z.
Proof. intros Hz. unfold wrap64. rewrite Z.mod_small; lia. Qed.

(** Within Spark's operating range the id is the pair (partition, count):
    no 64-bit overflow occurs. *)
Lemma monotonically_increasing_id_in_range (p k : nat) :
  Z.of_nat p < 2 ^ 30 → Z.of_nat k < 2 ^ 33 →
  monotonically_increasing_id p k = Z.of_nat p * 2 ^ 33 + Z.of_nat k.
Proof.
  intros Hp Hk. unfold monotonically_increasing_id.
  rewrite Z.shiftl_mul_pow2 by lia.
  rewrite (wrap64_small (_ * _)) by lia. apply wrap64_small. lia.
Qed.

Lemma elem_of_with_ids parts (x : Z * A) :
  x ∈ with_ids parts ↔
  ∃ p rows k r, parts !! p = Some rows ∧ rows !! k = Some r
                ∧ x = (monotonically_increasing_id p k, r).
Proof.
  unfold with_ids. rewrite list_elem_of_join. split.
  - intros (l & Hx & Hl).
    apply elem_of_lookup_imap in Hl as (p & rows & -> & Hp).
    apply elem_of_lookup_imap in Hx as (k & r & -> & Hk). eauto 10.
  - intros (p & rows & k & r & Hp & Hk & ->).
    eexists. split; [|by apply elem_of_lookup_imap_2].
    by apply (elem_of_lookup_imap_2 (λ i r, (monotonically_increasing_id p i, r))).
Qed.

(** Numbering the rows does not change them. *)
Lemma imap_pair_snd {I} (g : nat → I) (rows : list A) :
  (imap (λ i r, (g i, r)) rows).*2 = rows.
Proof.
  revert g. induction rows as [|r rows IH]; intros g; [done|].
  rewrite imap_cons. simpl. f_equal. apply (IH (g ∘ S)).
Qed.

Lemma imap_imap_pair_snd {I} (g : nat → nat → I) parts :
  (mjoin (imap (λ p rows, imap (λ i r, (g p i, r)) rows) parts)).*2 = mjoin parts.
Proof.
  revert g. induction parts as [|rows parts IH]; intros g; [done|].
  rewrite imap_cons. simpl. rewrite fmap_app, imap_pair_snd. f_equal.
  apply (IH (g ∘ S)).
Qed.

Lemma with_ids_snd parts : (with_ids parts).*2 = mjoin parts.
Proof. apply imap_imap_pair_snd. Qed.

Lemma imap_pair_fst_sorted (g : nat → Z) (rows : list A) :
  (∀ i j, (i < j < length rows)%nat → g i < g j) →
  StronglySorted Z.lt (imap (λ i r, (g i, r)) rows).*1.
Proof.
  revert g. induction rows as [|r rows IH]; intros g Hg; [constructor|].
  rewrite imap_cons. simpl. constructor.
  - apply (IH (g ∘ S)). intros i j Hij. apply Hg. simpl. lia.
  - apply list.Forall_forall. intros x Hx.
    apply list_elem_of_fmap in Hx as ([y r'] & -> & Hx).
    apply elem_of_lookup_imap in Hx as (i & r'' & [= -> ->] & Hi).
    apply lookup_lt_Some in Hi. apply Hg. simpl. lia.
Qed.

Lemma imap_imap_pair_fst_sorted (g : nat → nat → Z) parts :
  (∀ p rows i j, parts !! p = Some rows → (i < j < length rows)%nat → g p i < g p j) →
  (∀ p q rows rows' i j, (p < q)%nat → parts !! p = Some rows → parts !! q = Some rows' →
     (i < length rows)%nat → (j < length rows')%nat → g p i < g q j) →
  StronglySorted Z.lt (mjoin (imap (λ p rows, imap (λ i r, (g p i, r)) rows) parts)).*1.
Proof.
  revert g. induction parts as [|rows parts IH]; intros g Hin Hacross; [constructor|].
  rewrite imap_cons. simpl. rewrite fmap_app. apply StronglySorted_app_2.
  - intros x1 x2 Hx1 Hx2.
    apply list_elem_of_fmap in Hx1 as ([y1 r1] & -> & Hx1).
    apply elem_of_lookup_imap in Hx1 as (i & r1' & [= -> ->] & Hi).
    apply list_elem_of_fmap in Hx2 as ([y2 r2] & -> & Hx2).
    apply list_elem_of_join in Hx2 as (l & Hx2 & Hl).
    apply elem_of_lookup_imap in Hl as (q & rows' & -> & Hq).
    apply elem_of_lookup_imap in Hx2 as (j & r2' & [= -> ->] & Hj).
    apply lookup_lt_Some in Hi, Hj. simpl.
    apply (Hacross 0%nat (S q) rows rows'); [lia|done..].
  - apply imap_pair_fst_sorted. intros i j Hij. by apply (Hin 0%nat rows).
  - apply (IH (g ∘ S)).
    + intros p rows' i j Hp. by apply (Hin (S p)).
    + intros p q r1 r2 i j Hpq Hp Hq. apply (Hacross (S p) (S q)); [lia|done..].
Qed.

(** In partition order the ids increase strictly. *)
Lemma with_ids_sorted parts :
  in_id_range parts → StronglySorted Z.lt (with_ids parts).*1.
Proof.
  intros [Hn Hrows]. apply imap_imap_pair_fst_sorted.
  - intros p rows i j Hp Hij.
    pose proof (lookup_lt_Some _ _ _ Hp).
    rewrite list.Forall_forall in Hrows.
    specialize (Hrows rows (list_elem_of_lookup_2 _ _ _ Hp)).
    rewrite !monotonically_increasing_id_in_range by lia. lia.
  - intros p q rows rows' i j Hpq Hp Hq Hi Hj.
    pose proof (lookup_lt_Some _ _ _ Hp). pose proof (lookup_lt_Some _ _ _ Hq).
    rewrite list.Forall_forall in Hrows.
    pose proof (Hrows rows (list_elem_of_lookup_2 _ _ _ Hp)).
    pose proof (Hrows rows' (list_elem_of_lookup_2 _ _ _ Hq)).
    rewrite !monotonically_increasing_id_in_range by lia. nia.
Qed.

Lemma with_ids_NoDup parts : in_id_range parts → NoDup (with_ids parts).*1.
Proof. intros. by apply StronglySorted_lt_NoDup, with_ids_sorted. Qed.

End Ids.

(** ** The tables, row by row *)

Lemma sql_eq_Some `{EqDecision A} (a b : option A) :
  sql_eq a b ↔ ∃ x, a = Some x ∧ b = Some x.
Proof.
  destruct a as [x|], b as [y|]; simpl; try (split; [done|naive_solver]).
  rewrite bool_decide_spec. naive_solver.
Qed.

Lemma elem_of_filter_page (df : list Event.t) e :
  e ∈ filter_page df ↔ e ∈ df ∧ Event.page e = Some "NextSong"%string.
Proof.
  unfold filter_page. rewrite list_elem_of_filter, sql_eq_Some. naive_solver.
Qed.

Lemma elem_of_log_df (log_data : list Event.t) r :
  r ∈ log_df log_data ↔
  ∃ e, r = with_time_columns e ∧ e ∈ log_data ∧ Event.page e = Some "NextSong"%string.
Proof.
  unfold log_df. rewrite list_elem_of_fmap.
  setoid_rewrite elem_of_filter_page. naive_solver.
Qed.

Lemma log_df_well_timed log_data : Forall well_timed (log_df log_data).
Proof.
  apply list.Forall_forall. intros r (e & -> & _)%elem_of_log_df. done.
Qed.

Lemma elem_of_matching_songs song_df e s :
  s ∈ matching_songs song_df e ↔ s ∈ song_df ∧ title_matches (Log.event e) s.
Proof.
  unfold matching_songs, title_matches.
  rewrite list_elem_of_filter, sql_eq_Some. naive_solver.
Qed.

(** The left outer join, row by row. *)
Lemma elem_of_left_join df song_df e (m : option Songs.t) :
  (e, m) ∈ left_join df song_df ↔
  e ∈ df ∧ match m with
           | Some s => s ∈ song_df ∧ title_matches (Log.event e) s
           | None => ∀ s, s ∈ song_df → ¬ title_matches (Log.event e) s
           end.
Proof.
  unfold left_join. rewrite list_elem_of_bind. split.
  - intros (e' & Hin & He'). unfold left_join_row in Hin.
    destruct (matching_songs song_df e') as [|s0 ms] eqn:Hms.
    + apply list_elem_of_singleton in Hin as [= <- ->]. split; [done|].
      intros s Hs Hmatch.
      assert (s ∈ matching_songs song_df e) as Hin by by apply elem_of_matching_songs.
      rewrite Hms in Hin. by apply elem_of_nil in Hin.
    + apply list_elem_of_fmap in Hin as (s & [= <- ->] & Hs).
      rewrite <- Hms in Hs. by apply elem_of_matching_songs in Hs.
  - intros [He Hm]. exists e. split; [|done]. unfold left_join_row.
    destruct m as [s|].
    + assert (s ∈ matching_songs song_df e) as Hin by by apply elem_of_matching_songs.
      destruct (matching_songs song_df e) as [|s0 ms]; [by apply elem_of_nil in Hin|].
      by apply (list_elem_of_fmap_2 (λ s, (e, Some s))).
    + destruct (matching_songs song_df e) as [|s0 ms] eqn:Hms; [by apply list_elem_of_singleton|].
      exfalso. assert (s0 ∈ matching_songs song_df e) as Hin by (rewrite Hms; by left).
      apply elem_of_matching_songs in Hin as [Hs0 Hmatch]. by apply (Hm s0).
Qed.

(** Every row of [df] is in the join result. *)
Lemma left_join_keeps df song_df e :
  e ∈ df → ∃ m, (e, m) ∈ left_join df song_df.
Proof.
  intros He. destruct (matching_songs song_df e) as [|s ms] eqn:Hms.
  - exists None. apply elem_of_left_join. split; [done|]. intros s Hs Hmatch.
    assert (s ∈ matching_songs song_df e) as Hin by by apply elem_of_matching_songs.
    rewrite Hms in Hin. by apply elem_of_nil in Hin.
  - exists (Some s). apply elem_of_left_join. split; [done|].
    apply elem_of_matching_songs. rewrite Hms. by left.
Qed.

Lemma elem_of_time_table df t : t ∈ time_table df ↔ ∃ r, t = Log.cal r ∧ r ∈ df.
Proof. unfold time_table, dropDuplicates. by rewrite elem_of_remove_dups, list_elem_of_fmap. Qed.

Lemma time_table_NoDup df : NoDup (time_table df).
Proof. apply NoDup_remove_dups. Qed.

(** The inner join, row by row. *)
Lemma elem_of_calendar_join plays time_table r :
  r ∈ calendar_join plays time_table ↔
  ∃ p t, p ∈ plays ∧ t ∈ time_table ∧ Play.start_time p = Time.start_time t
         ∧ r = select_songplay p t.
Proof.
  unfold calendar_join. rewrite list_elem_of_bind.
  setoid_rewrite list_elem_of_fmap. setoid_rewrite list_elem_of_filter. naive_solver.
Qed.

Lemma elem_of_add_year_month plays time_table r :
  r ∈ add_year_month plays time_table ↔
  ∃ p t, p ∈ plays ∧ t ∈ time_table ∧ Play.start_time p = Time.start_time t
         ∧ r = select_songplay p t.
Proof.
  unfold add_year_month, dropDuplicates.
  by rewrite elem_of_remove_dups, elem_of_calendar_join.
Qed.

Lemma play_of_select_songplay p t : play_of (select_songplay p t) = p.
Proof. by destruct p. Qed.

(** With the time table of the same [df], the calendar join finds for every
    row exactly the calendar columns of its start time. *)
Lemma calendar_join_time_table df plays :
  Forall well_timed df →
  (∀ p, p ∈ plays → ∃ r, r ∈ df ∧ Time.start_time (Log.cal r) = Play.start_time p) →
  calendar_join plays (time_table df) = attach <$> plays.
Proof.
  intros Hdf Hplays. unfold calendar_join.
  rewrite list.Forall_forall in Hdf.
  induction plays as [|p plays IH]; [done|]. csimpl.
  rewrite IH by (intros; apply Hplays; by right). f_equal.
  destruct (Hplays p) as (r & Hr & Hst); [by left|].
  rewrite (filter_unique _ _ (calendar_columns (Play.start_time p))); [done|..].
  - apply time_table_NoDup.
  - apply elem_of_time_table. exists r. split; [|done].
    rewrite <- Hst. symmetry. by apply Hdf.
  - done.
  - intros t (r' & -> & Hr')%elem_of_time_table Heq.
    rewrite (Hdf r' Hr'). by rewrite Heq.
Qed.

Section EngineFacts.
Variable layout : Layout.
Hypothesis layout_perm : ∀ rows, mjoin (layout rows) ≡ₚ rows.

(** A row of line 96 is a row of the join result with some id. *)
Lemma elem_of_plays_table df song_df p :
  p ∈ plays_table layout df song_df ↔
  ∃ id e m, (id, (e, m)) ∈ with_ids (layout (left_join df song_df))
            ∧ (e, m) ∈ left_join df song_df ∧ p = select_play (id, (e, m)).
Proof.
  unfold plays_table. rewrite list_elem_of_fmap. split.
  - intros ([id [e m]] & -> & Hin). exists id, e, m. split; [done|]. split; [|done].
    rewrite <- (layout_perm (left_join df song_df)), <- with_ids_snd.
    by apply (list_elem_of_fmap_2 snd) in Hin.
  - intros (id & e & m & Hin & _ & ->). by exists (id, (e, m)).
Qed.

(** Every row of line 96 has its start time in [df]. *)
Lemma plays_table_start_time df song_df p :
  p ∈ plays_table layout df song_df →
  ∃ r, r ∈ df ∧ Time.start_time (Log.cal r) = Play.start_time p.
Proof.
  intros (id & e & m & _ & [He _]%elem_of_left_join & ->)%elem_of_plays_table.
  by exists e.
Qed.

(** Before [drop_duplicates], the fact table is the rows of line 96, each
    with the calendar columns of its start time. *)
Lemma calendar_join_plays_table df song_df :
  Forall well_timed df →
  calendar_join (plays_table layout df song_df) (time_table df)
  = attach <$> plays_table layout df song_df.
Proof.
  intros Hdf. apply calendar_join_time_table; [done|].
  apply plays_table_start_time.
Qed.

Lemma elem_of_songplays_table df song_df r :
  Forall well_timed df →
  r ∈ songplays_table layout df song_df ↔
  ∃ p, p ∈ plays_table layout df song_df ∧ r = attach p.
Proof.
  intros Hdf. unfold songplays_table, add_year_month, dropDuplicates.
  rewrite elem_of_remove_dups, calendar_join_plays_table, list_elem_of_fmap by done.
  naive_solver.
Qed.

Lemma plays_table_ids df song_df :
  Play.songplay_id <$> plays_table layout df song_df
  = (with_ids (layout (left_join df song_df))).*1.
Proof.
  unfold plays_table. rewrite <- list_fmap_compose.
  apply list_fmap_ext. by intros i [id [e m]] _.
Qed.

Lemma plays_table_NoDup df song_df :
  in_id_range (layout (left_join df song_df)) →
  NoDup (Play.songplay_id <$> plays_table layout df song_df).
Proof. intros. rewrite plays_table_ids. by apply with_ids_NoDup. Qed.

(** Within the id range [drop_duplicates] removes nothing. *)
Lemma songplays_table_exact df song_df :
  Forall well_timed df →
  in_id_range (layout (left_join df song_df)) →
  songplays_table layout df song_df = attach <$> plays_table layout df song_df.
Proof.
  intros Hdf Hrange. unfold songplays_table, add_year_month, dropDuplicates.
  rewrite calendar_join_plays_table by done.
  apply remove_dups_NoDup.
  apply (NoDup_fmap_1 Songplays.songplay_id). rewrite <- list_fmap_compose.
  by apply plays_table_NoDup.
Qed.

(** Where a row of the fact table comes from. *)
Lemma elem_of_songplays log_data out r :
  r ∈ Lake.songplays (process_log_data layout log_data out) ↔
  ∃ id e m,
    e ∈ log_data ∧ Event.page e = Some "NextSong"%string
    ∧ (with_time_columns e, m) ∈ left_join (log_df log_data) (Lake.songs out)
    ∧ (id, (with_time_columns e, m))
        ∈ with_ids (layout (left_join (log_df log_data) (Lake.songs out)))
    ∧ r = attach (select_play (id, (with_time_columns e, m))).
Proof.
  change (Lake.songplays (process_log_data layout log_data out))
    with (songplays_table layout (log_df log_data) (Lake.songs out)).
  rewrite elem_of_songplays_table by apply log_df_well_timed. split.
  - intros (p & (id & e & m & Hid & Hjoin & ->)%elem_of_plays_table & ->).
    pose proof Hjoin as [(ev & -> & Hev & Hpage)%elem_of_log_df _]%elem_of_left_join.
    exists id, ev, m. done.
  - intros (id & e & m & _ & _ & Hjoin & Hid & ->).
    eexists. split; [|done]. apply elem_of_plays_table. eauto 10.
Qed.

(** A filtered event has a row in the fact table. *)
Lemma event_in_songplays log_data out e :
  e ∈ log_data → Event.page e = Some "NextSong"%string →
  ∃ r, r ∈ Lake.songplays (process_log_data layout log_data out) ∧ from_event e r.
Proof.
  intros He Hpage.
  destruct (left_join_keeps (log_df log_data) (Lake.songs out) (with_time_columns e))
    as [m Hm]; [apply elem_of_log_df; eauto|].
  pose proof Hm as Hm'.
  rewrite <- (layout_perm (left_join _ _)), <- with_ids_snd in Hm'.
  apply list_elem_of_fmap in Hm' as ([id j] & Hj & Hid). simpl in Hj. subst j.
  exists (attach (select_play (id, (with_time_columns e, m)))).
  split; [|done]. apply elem_of_songplays. eauto 10.
Qed.

Lemma plays_table_length df song_df :
  length (plays_table layout df song_df) = length (left_join df song_df).
Proof.
  unfold plays_table. rewrite length_fmap.
  rewrite <- (length_fmap snd), with_ids_snd. by rewrite layout_perm.
Qed.

End EngineFacts.

(** ** Row order *)

Lemma bind_Permutation_ext {A B} (f g : A → list B) (l : list A) :
  (∀ x, f x ≡ₚ g x) → l ≫= f ≡ₚ l ≫= g.
Proof.
  intros Hfg. induction l as [|x l IH]; [done|]. csimpl. by rewrite Hfg, IH.
Qed.

Lemma left_join_row_Permutation song_df song_df' e :
  song_df ≡ₚ song_df' → left_join_row song_df e ≡ₚ left_join_row song_df' e.
Proof.
  intros Hperm. unfold left_join_row.
  assert (matching_songs song_df e ≡ₚ matching_songs song_df' e) as Hm
    by (unfold matching_songs; by rewrite Hperm).
  destruct (matching_songs song_df e) as [|s ms].
  - apply Permutation_nil_l in Hm. by rewrite <- Hm.
  - destruct (matching_songs song_df' e) as [|s' ms'].
    + by apply Permutation_nil_r in Hm.
    + by rewrite Hm.
Qed.

Lemma left_join_Permutation df df' song_df song_df' :
  df ≡ₚ df' → song_df ≡ₚ song_df' → left_join df song_df ≡ₚ left_join df' song_df'.
Proof.
  intros Hdf Hsongs. unfold left_join. rewrite Hdf.
  apply bind_Permutation_ext. intros e. by apply left_join_row_Permutation.
Qed.

Lemma log_df_Permutation log_data log_data' :
  log_data ≡ₚ log_data' → log_df log_data ≡ₚ log_df log_data'.
Proof. intros Hperm. unfold log_df, filter_page. by rewrite Hperm. Qed.

(** The fact table without its ids is the join result, row for row. *)
Lemma songplays_content layout log_data out :
  (∀ rows, mjoin (layout rows) ≡ₚ rows) →
  in_id_range (layout (left_join (log_df log_data) (Lake.songs out))) →
  content <$> Lake.songplays (process_log_data layout log_data out)
  ≡ₚ (λ j, content (attach (select_play (0, j))))
       <$> left_join (log_df log_data) (Lake.songs out).
Proof.
  intros Hperm Hrange.
  change (Lake.songplays (process_log_data layout log_data out))
    with (songplays_table layout (log_df log_data) (Lake.songs out)).
  rewrite (songplays_table_exact layout Hperm) by (done || apply log_df_well_timed).
  unfold plays_table. rewrite <- !list_fmap_compose.
  set (parts := layout (left_join (log_df log_data) (Lake.songs out))).
  set (g := λ j, content (attach (select_play (0, j)))).
  assert (content ∘ attach ∘ select_play <$> with_ids parts = g <$> (with_ids parts).*2)
    as -> by (rewrite <- list_fmap_compose; apply list_fmap_ext; by intros i [id [e m]] _).
  rewrite with_ids_snd. apply fmap_Permutation, Hperm.
Qed.

(** ** The sample layouts *)

Lemma single_partition_perm rows : mjoin (single_partition rows) ≡ₚ rows.
Proof. unfold single_partition. simpl. by rewrite app_nil_r. Qed.

Lemma partition_per_row_perm rows : mjoin (partition_per_row rows) ≡ₚ rows.
Proof.
  unfold partition_per_row. induction rows as [|r rows IH]; [done|].
  simpl. by rewrite IH.
Qed.

(** ** The time decomposition *)


(** ** The fact table *)

Section Claims.
Variable layout : Layout.
Hypothesis layout_perm : ∀ rows, mjoin (layout rows) ≡ₚ rows.

(** C1 (amended). The identity join is a left outer join of the filtered
    events with the songs table on [song == title]: a joined row pairs an
    event with a songs row of equal title, or with nulls when no songs row
    has that title.  Every songplays row with a non-null [song_id] comes from
    an event and a songs row whose title equals the event's song; every row
    with a null [song_id] comes from an event that matched no songs row, or
    from a match with a songs row whose own [song_id] is null; every filtered
    event is in the join result and in the fact table, matched or not. *)
Theorem songplays_left_join (log_data : list Event.t) (out : Lake.t) :
  let song_df := Lake.songs out in
  let songplays := Lake.songplays (process_log_data layout log_data out) in
  (∀ e m, (e, m) ∈ left_join (log_df log_data) song_df ↔
     e ∈ log_df log_data
     ∧ match m with
       | Some s => s ∈ song_df ∧ title_matches (Log.event e) s
       | None => ∀ s, s ∈ song_df → ¬ title_matches (Log.event e) s
       end)
  ∧ (∀ r, r ∈ songplays → is_Some (Songplays.song_id r) →
       ∃ e s, e ∈ log_data ∧ Event.page e = Some "NextSong"%string ∧ from_event e r
              ∧ s ∈ song_df ∧ title_matches e s
              ∧ Songplays.song_id r = Songs.song_id s
              ∧ Songplays.artist_id r = Songs.artist_id s)
  ∧ (∀ r, r ∈ songplays → Songplays.song_id r = None →
       ∃ e, e ∈ log_data ∧ Event.page e = Some "NextSong"%string ∧ from_event e r
            ∧ ((Songplays.artist_id r = None
                ∧ ∀ s, s ∈ song_df → ¬ title_matches e s)
               ∨ (∃ s, s ∈ song_df ∧ title_matches e s ∧ Songs.song_id s = None
                       ∧ Songplays.artist_id r = Songs.artist_id s)))
  ∧ (∀ e, e ∈ log_data → Event.page e = Some "NextSong"%string →
       (∃ m, (with_time_columns e, m) ∈ left_join (log_df log_data) song_df)
       ∧ (∃ r, r ∈ songplays ∧ from_event e r)).
Proof.
  cbv zeta. split; [intros; apply elem_of_left_join|].
  split; [|split].
  - intros r (id & e & m & He & Hpage & Hjoin & _ & ->)%elem_of_songplays Hsome;
      [|done].
    apply elem_of_left_join in Hjoin as [_ Hm].
    destruct m as [s|]; [|by destruct Hsome].
    exists e, s. destruct Hm. by repeat split.
  - intros r (id & e & m & He & Hpage & Hjoin & _ & ->)%elem_of_songplays Hnone;
      [|done].
    apply elem_of_left_join in Hjoin as [_ Hm].
    exists e. repeat split; try done.
    destruct m as [s|]; [right|left; by split].
    exists s. destruct Hm. by repeat split.
  - intros e He Hpage. split; [|by apply event_in_songplays].
    apply left_join_keeps, elem_of_log_df. eauto.
Qed.

(** C2. Within the engine's id range (at most 2^30 partitions of at most
    2^33 rows) the [songplay_id]s of the fact table are pairwise distinct,
    however the join result is split into partitions.  They are assigned on
    the rows of line 96, before the calendar join, where they increase
    strictly in partition order; row k of partition p gets p * 2^33 + k, so
    they are not contiguous across partitions.  The calendar join keeps them:
    the fact rows, without [year] and [month], are exactly the rows of
    line 96. *)
Theorem songplay_id_unique (log_data : list Event.t) (out : Lake.t) :
  let df := log_df log_data in
  let parts := layout (left_join df (Lake.songs out)) in
  let plays := plays_table layout df (Lake.songs out) in
  let songplays := Lake.songplays (process_log_data layout log_data out) in
  in_id_range parts →
  NoDup (Songplays.songplay_id <$> songplays)
  ∧ StronglySorted Z.lt (Play.songplay_id <$> plays)
  ∧ (∀ p rows k j, parts !! p = Some rows → rows !! k = Some j →
       select_play (Z.of_nat p * 2 ^ 33 + Z.of_nat k, j) ∈ plays)
  ∧ (∀ r, r ∈ songplays → play_of r ∈ plays)
  ∧ (∀ p, p ∈ plays → ∃ r, r ∈ songplays ∧ play_of r = p).
Proof.
  cbv zeta. intros Hrange.
  change (Lake.songplays (process_log_data layout log_data out))
    with (songplays_table layout (log_df log_data) (Lake.songs out)).
  pose proof (log_df_well_timed log_data) as Hdf.
  split; [|split; [|split; [|split]]].
  - rewrite songplays_table_exact by done.
    rewrite <- list_fmap_compose. by apply plays_table_NoDup.
  - rewrite plays_table_ids. by apply with_ids_sorted.
  - intros p rows k j Hp Hk. unfold plays_table. apply list_elem_of_fmap_2.
    apply elem_of_with_ids. exists p, rows, k, j. split; [done|]. split; [done|].
    destruct Hrange as [Hn Hrows]. rewrite list.Forall_forall in Hrows.
    pose proof (Hrows rows (list_elem_of_lookup_2 _ _ _ Hp)).
    apply lookup_lt_Some in Hp, Hk.
    by rewrite monotonically_increasing_id_in_range by lia.
  - intros r (p & Hp & ->)%elem_of_songplays_table; [|done..].
    unfold attach. by rewrite play_of_select_songplay.
  - intros p Hp. exists (attach p). split.
    + apply elem_of_songplays_table; eauto.
    + apply play_of_select_songplay.
Qed.


(** C4. The calendar join is an inner join on [start_time]: every row it
    produces carries the [year] and [month] of a time-table row with the
    row's start time, and a row of line 96 whose start time is in no
    time-table row produces nothing.  In a run, the time-table row of a fact
    row's start time is unique, so [year] and [month] are those of that
    CalendarInstant. *)
Theorem songplays_year_month (log_data : list Event.t) (out : Lake.t) :
  let run := process_log_data layout log_data out in
  (∀ plays time_table r, r ∈ add_year_month plays time_table →
     ∃ t, t ∈ time_table ∧ Time.start_time t = Songplays.start_time r
          ∧ Songplays.year r = Time.year t ∧ Songplays.month r = Time.month t
          ∧ play_of r ∈ plays)
  ∧ (∀ plays time_table p, p ∈ plays →
       (∀ t, t ∈ time_table → Time.start_time t ≠ Play.start_time p) →
       ∀ r, r ∈ add_year_month plays time_table → play_of r ≠ p)
  ∧ (∀ r, r ∈ Lake.songplays run →
       ∃ t, t ∈ Lake.time run ∧ Time.start_time t = Songplays.start_time r
            ∧ Songplays.year r = Time.year t ∧ Songplays.month r = Time.month t
            ∧ ∀ t', t' ∈ Lake.time run →
                    Time.start_time t' = Songplays.start_time r → t' = t).
Proof.
  cbv zeta. split; [|split].
  - intros plays time_table r (p & t & Hp & Ht & Hst & ->)%elem_of_add_year_month.
    exists t. rewrite play_of_select_songplay. by destruct p.
  - intros plays time_table p Hp Hnone r
      (p' & t & Hp' & Ht & Hst & ->)%elem_of_add_year_month.
    rewrite play_of_select_songplay. intros ->. by apply (Hnone t).
  - change (Lake.time (process_log_data layout log_data out))
      with (time_table (log_df log_data)).
    pose proof (log_df_well_timed log_data) as Hdf.
    rewrite list.Forall_forall in Hdf.
    intros r (id & e & m & He & Hpage & _ & _ & ->)%elem_of_songplays; [|done].
    exists (decompose (Event.ts e)). split; [|split; [done|split; [done|split; [done|]]]].
    + apply elem_of_time_table. exists (with_time_columns e). split; [done|].
      apply elem_of_log_df. eauto.
    + intros t' (r' & -> & Hr')%elem_of_time_table Hst.
      rewrite (Hdf r' Hr'). simpl in Hst. by rewrite Hst.
Qed.

(** C5. An event whose page is not "NextSong" (null included) is dropped by
    the filter, and the run is the same with and without it: it adds no row
    to users, time or songplays.  Every filtered event, and every row of
    users, time and songplays, comes from an input event whose page is
    "NextSong". *)
Theorem only_next_song (log_data : list Event.t) (out : Lake.t) :
  let run := process_log_data layout log_data out in
  (∀ e, e ∈ filter_page log_data ↔ e ∈ log_data ∧ Event.page e = Some "NextSong"%string)
  ∧ (∀ l1 l2 e, Event.page e ≠ Some "NextSong"%string →
       process_log_data layout (l1 ++ e :: l2) out
       = process_log_data layout (l1 ++ l2) out)
  ∧ (∀ u, u ∈ Lake.users run →
       ∃ e, e ∈ log_data ∧ Event.page e = Some "NextSong"%string ∧ u = select_users e)
  ∧ (∀ t, t ∈ Lake.time run →
       ∃ e, e ∈ log_data ∧ Event.page e = Some "NextSong"%string
            ∧ t = decompose (Event.ts e))
  ∧ (∀ r, r ∈ Lake.songplays run →
       ∃ e, e ∈ log_data ∧ Event.page e = Some "NextSong"%string ∧ from_event e r).
Proof.
  cbv zeta. split; [apply elem_of_filter_page|]. split; [|split; [|split]].
  - intros l1 l2 e Hpage.
    assert (filter_page (l1 ++ e :: l2) = filter_page (l1 ++ l2)) as Heq.
    { unfold filter_page. rewrite !list.filter_app. f_equal.
      apply filter_cons_False. rewrite sql_eq_Some. naive_solver. }
    unfold process_log_data. by rewrite Heq.
  - intros u. change (Lake.users (process_log_data layout log_data out))
      with (users_table (filter_page log_data)).
    unfold users_table, dropDuplicates.
    rewrite elem_of_remove_dups, list_elem_of_fmap.
    intros (e & -> & He%elem_of_filter_page). naive_solver.
  - intros t. change (Lake.time (process_log_data layout log_data out))
      with (time_table (log_df log_data)).
    intros (r & -> & (e & -> & He & Hpage)%elem_of_log_df)%elem_of_time_table.
    by exists e.
  - intros r (id & e & m & He & Hpage & _ & _ & ->)%elem_of_songplays; [|done].
    by exists e.
Qed.

(** C6. None of the four dimension tables of a run has two equal rows.
    Catalog records that agree on every projected song column give one row
    of songs; two such records alone give a songs table of one row. *)
Theorem dimension_tables_NoDup
    (song_data : list Catalog.t) (log_data : list Event.t) (out : Lake.t) :
  let run := main layout song_data log_data out in
  NoDup (Lake.songs run) ∧ NoDup (Lake.artists run)
  ∧ NoDup (Lake.users run) ∧ NoDup (Lake.time run)
  ∧ (∀ r1 r2, r1 ∈ song_data → r2 ∈ song_data → select_songs r1 = select_songs r2 →
       filter (λ s, s = select_songs r1) (Lake.songs run) = [select_songs r2])
  ∧ (∀ r1 r2, select_songs r1 = select_songs r2 →
       Lake.songs (process_song_data [r1; r2] out) = [select_songs r1]).
Proof.
  cbv zeta. repeat split; try apply NoDup_remove_dups.
  - intros r1 r2 Hr1 Hr2 Heq. rewrite <- Heq.
    apply filter_unique; [apply NoDup_remove_dups| |done|by intros].
    apply elem_of_remove_dups. by apply list_elem_of_fmap_2.
  - intros r1 r2 Heq. simpl. unfold songs_table, dropDuplicates. simpl.
    rewrite <- Heq.
    destruct (decide_rel _ _ _) as [H1|H1]; [done|by destruct H1; left].
Qed.

(** C10. In a run the time table is built from the same filtered events as
    the rows of line 96, so each of those rows finds a time-table row with
    its start time: the calendar join returns as many rows as the first join
    produced, each row of line 96 has its fact row, and every filtered event
    has a fact row. *)
Theorem calendar_join_keeps_all (log_data : list Event.t) (out : Lake.t) :
  let plays := plays_table layout (log_df log_data) (Lake.songs out) in
  let run := process_log_data layout log_data out in
  (∀ p, p ∈ plays → ∃ t, t ∈ Lake.time run ∧ Time.start_time t = Play.start_time p)
  ∧ length (calendar_join plays (Lake.time run))
    = length (left_join (log_df log_data) (Lake.songs out))
  ∧ (∀ p, p ∈ plays → ∃ r, r ∈ Lake.songplays run ∧ play_of r = p)
  ∧ (∀ e, e ∈ log_data → Event.page e = Some "NextSong"%string →
       ∃ r, r ∈ Lake.songplays run ∧ from_event e r).
Proof.
  cbv zeta.
  change (Lake.time (process_log_data layout log_data out))
    with (time_table (log_df log_data)).
  change (Lake.songplays (process_log_data layout log_data out))
    with (songplays_table layout (log_df log_data) (Lake.songs out)).
  pose proof (log_df_well_timed log_data) as Hdf.
  split; [|split; [|split]].
  - intros p (r & Hr & Hst)%plays_table_start_time; [|done].
    exists (Log.cal r). split; [|done]. apply elem_of_time_table. eauto.
  - by rewrite calendar_join_plays_table, length_fmap, plays_table_length.
  - intros p Hp. exists (attach p). split.
    + apply elem_of_songplays_table; eauto.
    + apply play_of_select_songplay.
  - intros e He Hpage. by apply event_in_songplays.
Qed.

End Claims.

(** C8 (amended). Two runs on the same inputs, read in any order and laid
    out by the engine in any way within the id range, write the same songs,
    artists, users and time tables up to row order, and the same songplays
    rows up to row order in every column but [songplay_id].  What the bucket
    held before a run does not matter (every write overwrites), so with the
    same layout the whole bucket is the same. *)
Theorem rerun_same_tables (layout1 layout2 : Layout)
    (song_data song_data' : list Catalog.t) (log_data log_data' : list Event.t)
    (out out' : Lake.t) :
  let run1 := main layout1 song_data log_data out in
  let run2 := main layout2 song_data' log_data' out' in
  (∀ rows, mjoin (layout1 rows) ≡ₚ rows) →
  (∀ rows, mjoin (layout2 rows) ≡ₚ rows) →
  song_data ≡ₚ song_data' →
  log_data ≡ₚ log_data' →
  in_id_range (layout1 (left_join (log_df log_data) (songs_table song_data))) →
  in_id_range (layout2 (left_join (log_df log_data') (songs_table song_data'))) →
  Lake.songs run1 ≡ₚ Lake.songs run2
  ∧ Lake.artists run1 ≡ₚ Lake.artists run2
  ∧ Lake.users run1 ≡ₚ Lake.users run2
  ∧ Lake.time run1 ≡ₚ Lake.time run2
  ∧ content <$> Lake.songplays run1 ≡ₚ content <$> Lake.songplays run2
  ∧ main layout1 song_data log_data out = main layout1 song_data log_data out'.
Proof.
  cbv zeta. intros Hperm1 Hperm2 Hsongs Hlog Hrange1 Hrange2.
  assert (songs_table song_data ≡ₚ songs_table song_data') as Hst
    by (unfold songs_table, dropDuplicates; by apply remove_dups_Permutation, fmap_Permutation).
  split; [done|]. split; [|split; [|split; [|split; [|done]]]].
  - unfold main, process_log_data, process_song_data, artists_table, dropDuplicates. simpl.
    by apply remove_dups_Permutation, fmap_Permutation.
  - unfold main, process_log_data, users_table, dropDuplicates, filter_page. simpl.
    apply remove_dups_Permutation, fmap_Permutation. by rewrite Hlog.
  - change (time_table (log_df log_data) ≡ₚ time_table (log_df log_data')).
    unfold time_table, dropDuplicates.
    by apply remove_dups_Permutation, fmap_Permutation, log_df_Permutation.
  - unfold main.
    rewrite (songplays_content layout1), (songplays_content layout2) by done.
    apply fmap_Permutation, left_join_Permutation; [by apply log_df_Permutation|done].
Qed.

Section Scenario.
Variable layout : Layout.
Hypothesis layout_perm : ∀ rows, mjoin (layout rows) ≡ₚ rows.
Local Open Scope string_scope.

(** C9 (amended). One catalog record with song_id "S1", title "Test Song"
    and artist_id "A1", and one "NextSong" event with song "Test Song",
    ts 1541990258796 and userId "10", give exactly one songplays row, with
    song_id "S1", artist_id "A1", year 2018 and month 11, and exactly one
    time row: that of 2018-11-12 02:37:38.796 UTC, with hour 2, day 12,
    week 46, month 11, year 2018 and weekday 1. *)
Theorem example_scenario (c : Catalog.t) (e : Event.t) (out : Lake.t) :
  let run := main layout [c] [e] out in
  Catalog.song_id c = Some "S1" →
  Catalog.title c = Some "Test Song" →
  Catalog.artist_id c = Some "A1" →
  Event.page e = Some "NextSong" →
  Event.song e = Some "Test Song" →
  Event.ts e = 1541990258796 →
  Event.userId e = Some "10" →
  (∃ id, Lake.songplays run
         = [Songplays.mk id 1541990258796000 2018 11 (Some "10") (Event.level e)
                         (Some "S1") (Some "A1") (Event.sessionId e)
                         (Event.location e) (Event.userAgent e)])
  ∧ Lake.time run = [Time.mk 1541990258796000 2 12 46 11 2018 "1"]
  ∧ decompose 1541990258796 = Time.mk 1541990258796000 2 12 46 11 2018 "1".
Proof.
  cbv zeta. intros Hid Htitle Hartist Hpage Hsong Hts Huser.
  destruct c as [c1 c2 c3 c4 c5 c6 c7 c8 c9], e as [e1 e2 e3 e4 e5 e6 e7 e8 e9 e10 e11].
  simpl in *. subst.
  split; [|split; reflexivity].
  set (j := (with_time_columns
               (Event.mk (Some "NextSong") (Some "10") e3 e4 e5 e6 (Some "Test Song")
                         1541990258796 e9 e10 e11),
             Some (Songs.mk (Some "S1") (Some "Test Song") (Some "A1") c8 c9))).
  assert (∃ id, with_ids (layout [j]) = [(id, j)]) as [id Hids].
  { pose proof (with_ids_snd (layout [j])) as Hsnd.
    rewrite (proj1 (Permutation_singleton_r _ _) (layout_perm [j])) in Hsnd.
    destruct (with_ids (layout [j])) as [|[id j'] [|? ?]]; try done.
    exists id. simpl in Hsnd. by injection Hsnd as ->. }
  exists id. unfold main, process_log_data, songplays_table, plays_table.
  change (left_join _ _) with [j]. by rewrite Hids.
Qed.

End Scenario.

(** ** The properties on the sample inputs *)

(** Closes [in_id_range] on a concrete layout. *)
Ltac id_range := split; [simpl; lia | repeat constructor; simpl; lia].

(** C1 on a sample log: the play of a song the catalog does not have is in
    the join result. *)
Lemma songplays_left_join_witness :
  ∃ m, (with_time_columns Sample.event_26, m)
       ∈ left_join (log_df [Sample.event_home; Sample.event_10; Sample.event_26])
                   (Lake.songs (process_song_data [Sample.song_S1] Lake.empty)).
Proof.
  apply (songplays_left_join single_partition single_partition_perm
           [Sample.event_home; Sample.event_10; Sample.event_26]
           (process_song_data [Sample.song_S1] Lake.empty)).
  - vm_compute. do 2 right. by left.
  - reflexivity.
Defined.

(** C1 as stated fails: a catalog record with a null [song_id] matches the
    event by title, and the songplays row has a null [song_id] although its
    event did match a songs row. *)
Lemma null_song_id_of_matched_event :
  let run := main single_partition [Sample.song_S2; Sample.song_without_id]
                  [Sample.event_10] Lake.empty in
  ¬ (∀ r, r ∈ Lake.songplays run → Songplays.song_id r = None →
          ∃ e, e ∈ [Sample.event_10] ∧ from_event e r
               ∧ ∀ s, s ∈ Lake.songs run → ¬ title_matches e s).
Proof.
  cbv zeta. intros H.
  destruct (H (attach (select_play (0, (with_time_columns Sample.event_10,
                                        Some (select_songs Sample.song_without_id))))))
    as (e & He & _ & Hnone).
  - vm_compute. by left.
  - reflexivity.
  - apply list_elem_of_singleton in He as ->.
    apply (Hnone (select_songs Sample.song_without_id)).
    + vm_compute. right. by left.
    + by exists "Test Song"%string.
Qed.

(** C2 on a sample log with one partition per row: the ids are distinct,
    and they are 0 and 2^33. *)
Lemma songplay_id_unique_witness :
  NoDup (Songplays.songplay_id <$>
           Lake.songplays (process_log_data partition_per_row
                             [Sample.event_10; Sample.event_home; Sample.event_26]
                             (process_song_data [Sample.song_S1] Lake.empty)))
  ∧ Songplays.songplay_id <$>
      Lake.songplays (process_log_data partition_per_row
                        [Sample.event_10; Sample.event_home; Sample.event_26]
                        (process_song_data [Sample.song_S1] Lake.empty))
    = [0; 8589934592].
Proof.
  split; [|reflexivity].
  refine (proj1 (songplay_id_unique partition_per_row partition_per_row_perm
                   [Sample.event_10; Sample.event_home; Sample.event_26]
                   (process_song_data [Sample.song_S1] Lake.empty) _)).
  id_range.
Defined.


(** C4 on a sample log: the fact row of the second play has the year and
    month of the one time row of its start time. *)
Lemma songplays_year_month_witness :
  ∃ t, t ∈ Lake.time (process_log_data single_partition
                        [Sample.event_10; Sample.event_26]
                        (process_song_data [Sample.song_S1] Lake.empty))
       ∧ Time.start_time t = 1542000000000000
       ∧ 2018 = Time.year t ∧ 11 = Time.month t
       ∧ ∀ t', t' ∈ Lake.time (process_log_data single_partition
                                 [Sample.event_10; Sample.event_26]
                                 (process_song_data [Sample.song_S1] Lake.empty)) →
               Time.start_time t' = 1542000000000000 → t' = t.
Proof.
  refine (proj2 (proj2 (songplays_year_month single_partition single_partition_perm
                          [Sample.event_10; Sample.event_26]
                          (process_song_data [Sample.song_S1] Lake.empty)))
            (attach (select_play (1, (with_time_columns Sample.event_26, None)))) _).
  vm_compute. right. by left.
Defined.

(** C5 on a sample log: the run is the same without the "Home" event. *)
Lemma only_next_song_witness :
  process_log_data single_partition
    ([Sample.event_10] ++ Sample.event_home :: [Sample.event_26]) Lake.empty
  = process_log_data single_partition
      ([Sample.event_10] ++ [Sample.event_26]) Lake.empty.
Proof.
  refine (proj1 (proj2 (only_next_song single_partition single_partition_perm [] Lake.empty))
            [Sample.event_10] [Sample.event_26] Sample.event_home _).
  discriminate.
Defined.

(** C8 on sample inputs read in two orders and laid out in two ways. *)
Lemma rerun_same_tables_witness :
  content <$> Lake.songplays (main single_partition
                                [Sample.song_S1; Sample.song_S1_again]
                                [Sample.event_10; Sample.event_26] Lake.empty)
  ≡ₚ content <$> Lake.songplays (main partition_per_row
                                   [Sample.song_S1_again; Sample.song_S1]
                                   [Sample.event_26; Sample.event_10] Lake.empty).
Proof.
  refine (proj1 (proj2 (proj2 (proj2 (proj2
    (rerun_same_tables single_partition partition_per_row
       [Sample.song_S1; Sample.song_S1_again] [Sample.song_S1_again; Sample.song_S1]
       [Sample.event_10; Sample.event_26] [Sample.event_26; Sample.event_10]
       Lake.empty Lake.empty
       single_partition_perm partition_per_row_perm _ _ _ _)))))).
  - apply perm_swap.
  - apply perm_swap.
  - id_range.
  - id_range.
Defined.

(** C8 as stated fails: with the join result in one partition the two plays
    get the ids 0 and 1, with one partition per row they get 0 and 2^33; the
    two songplays tables differ, whatever the row order. *)
Lemma rerun_other_ids :
  ¬ (Lake.songplays (main single_partition [Sample.song_S1]
                          [Sample.event_10; Sample.event_26] Lake.empty)
     ≡ₚ Lake.songplays (main partition_per_row [Sample.song_S1]
                             [Sample.event_10; Sample.event_26] Lake.empty)).
Proof.
  intros Hperm.
  apply (fmap_Permutation Songplays.songplay_id) in Hperm.
  vm_compute in Hperm.
  assert (1 ∈ [0; 8589934592]) as Hin by (rewrite <- Hperm; right; by left).
  apply elem_of_cons in Hin as [Hin|Hin]; [done|].
  by apply list_elem_of_singleton in Hin.
Qed.

(** C9 on the sample record and event: the one time row. *)
Lemma example_scenario_witness :
  Lake.time (main single_partition [Sample.song_S1] [Sample.event_10] Lake.empty)
  = [Time.mk 1541990258796000 2 12 46 11 2018 "1"].
Proof.
  refine (proj1 (proj2 (example_scenario single_partition single_partition_perm
                          Sample.song_S1 Sample.event_10 Lake.empty _ _ _ _ _ _ _)));
    reflexivity.
Defined.

(** C9 as stated fails on the hour: 1541990258796 ms is 02:37:38.796 UTC on
    2018-11-12, so the one time row has hour 2, not 3. *)
Lemma example_hour_is_not_3 :
  ¬ (∃ t, Lake.time (main single_partition [Sample.song_S1] [Sample.event_10] Lake.empty)
          = [t]
          ∧ Time.start_time t = get_timestamp 1541990258796
          ∧ Time.year t = 2018 ∧ Time.month t = 11 ∧ Time.day t = 12
          ∧ Time.hour t = 3).
Proof.
  intros (t & Ht & _ & _ & _ & _ & Hhour).
  vm_compute in Ht. injection Ht as <-. discriminate Hhour.
Qed.

(** C10 on a sample log: the unmatched play has its fact row. *)
Lemma calendar_join_keeps_all_witness :
  ∃ r, r ∈ Lake.songplays (process_log_data partition_per_row
                             [Sample.event_10; Sample.event_26]
                             (process_song_data [Sample.song_S1] Lake.empty))
       ∧ from_event Sample.event_26 r.
Proof.
  apply (calendar_join_keeps_all partition_per_row partition_per_row_perm
           [Sample.event_10; Sample.event_26]
           (process_song_data [Sample.song_S1] Lake.empty)).
  - vm_compute. right. by left.
  - reflexivity.
Defined.

(** * Further properties *)

Module CalendarOrder.
Import Calendar CalendarFacts.

Lemma yoe_of_mono doe1 doe2 :
  0 ≤ doe1 → doe1 ≤ doe2 → doe2 < DAYS_PER_ERA → yoe_of doe1 ≤ yoe_of doe2.
Proof. unfold yoe_of, DAYS_PER_ERA. intros. Z.div_mod_to_equations. lia. Qed.

Lemma doy_of_mono doe1 doe2 :
  yoe_of doe1 = yoe_of doe2 → doe1 ≤ doe2 → doy_of doe1 ≤ doy_of doe2.
Proof. intros Hy Hle. unfold doy_of. cbv zeta. rewrite Hy. lia. Qed.

Lemma mp_of_mono doe1 doe2 :
  yoe_of doe1 = yoe_of doe2 → doe1 ≤ doe2 → mp_of doe1 ≤ mp_of doe2.
Proof.
  intros Hy Hle. pose proof (doy_of_mono _ _ Hy Hle). unfold mp_of.
  Z.div_mod_to_equations. lia.
Qed.

(** Two days in calendar order lie in the same year of the same era, or
    the later one in a later year. *)
Lemma day_order d1 d2 :
  d1 ≤ d2 →
  (era_of d1 = era_of d2 ∧ yoe_of (doe_of d1) = yoe_of (doe_of d2)
   ∧ doy_of (doe_of d1) ≤ doy_of (doe_of d2) ∧ mp_of (doe_of d1) ≤ mp_of (doe_of d2))
  ∨ yoe_of (doe_of d1) + 400 * era_of d1 < yoe_of (doe_of d2) + 400 * era_of d2.
Proof.
  intros Hle.
  destruct (era_doe d1) as [Hd1 Hdoe1], (era_doe d2) as [Hd2 Hdoe2].
  destruct (yoe_doy_range _ Hdoe1) as [Hy1 _], (yoe_doy_range _ Hdoe2) as [Hy2 _].
  unfold DAYS_PER_ERA in *.
  destruct (decide (era_of d1 = era_of d2)) as [He|He].
  - assert (doe_of d1 ≤ doe_of d2) as Hdoe by lia.
    pose proof (yoe_of_mono (doe_of d1) (doe_of d2)) as Hmono.
    unfold DAYS_PER_ERA in Hmono.
    destruct (decide (yoe_of (doe_of d1) = yoe_of (doe_of d2))) as [Hy|Hy].
    + left. repeat split; [done..|by apply doy_of_mono|by apply mp_of_mono].
    + right. lia.
  - right. assert (era_of d1 < era_of d2); [|lia].
    assert (era_of d1 ≤ era_of d2); [|lia].
    unfold era_of, DAYS_PER_ERA. apply Z.div_le_mono; lia.
Qed.

Lemma year_of_day_mono d1 d2 : d1 ≤ d2 → year_of_day d1 ≤ year_of_day d2.
Proof.
  intros Hle. destruct (era_doe d1) as [_ Hdoe1], (era_doe d2) as [_ Hdoe2].
  destruct (yoe_doy_range _ Hdoe1) as [_ Hdoy1], (yoe_doy_range _ Hdoe2) as [_ Hdoy2].
  pose proof (mp_range _ Hdoy1). pose proof (mp_range _ Hdoy2).
  unfold year_of_day, month_of_day.
  destruct (day_order d1 d2 Hle) as [(He & Hy & _ & Hmp)|Hlt];
    repeat case_bool_decide; lia.
Qed.

Lemma month_of_day_mono d1 d2 :
  d1 ≤ d2 → year_of_day d1 = year_of_day d2 → month_of_day d1 ≤ month_of_day d2.
Proof.
  intros Hle. destruct (era_doe d1) as [_ Hdoe1], (era_doe d2) as [_ Hdoe2].
  destruct (yoe_doy_range _ Hdoe1) as [_ Hdoy1], (yoe_doy_range _ Hdoe2) as [_ Hdoy2].
  pose proof (mp_range _ Hdoy1). pose proof (mp_range _ Hdoy2).
  unfold year_of_day, month_of_day.
  destruct (day_order d1 d2 Hle) as [(He & Hy & _ & Hmp)|Hlt];
    repeat case_bool_decide; lia.
Qed.

Lemma dayofmonth_of_day_mono d1 d2 :
  d1 ≤ d2 → year_of_day d1 = year_of_day d2 → month_of_day d1 = month_of_day d2 →
  dayofmonth_of_day d1 ≤ dayofmonth_of_day d2.
Proof.
  intros Hle. destruct (era_doe d1) as [_ Hdoe1], (era_doe d2) as [_ Hdoe2].
  destruct (yoe_doy_range _ Hdoe1) as [_ Hdoy1], (yoe_doy_range _ Hdoe2) as [_ Hdoy2].
  pose proof (mp_range _ Hdoy1). pose proof (mp_range _ Hdoy2).
  unfold year_of_day, month_of_day, dayofmonth_of_day. cbv zeta.
  destruct (day_order d1 d2 Hle) as [(He & Hy & Hdoy & Hmp)|Hlt];
    repeat case_bool_decide; try lia.
  all: intros _ Hm; assert (mp_of (doe_of d1) = mp_of (doe_of d2)) as -> by lia; lia.
Qed.

Lemma epoch_day_mono t1 t2 : t1 ≤ t2 → epoch_day t1 ≤ epoch_day t2.
Proof.
  intros. unfold epoch_day, MICROS_PER_DAY, MICROS_PER_HOUR, MICROS_PER_SECOND.
  apply Z.div_le_mono; lia.
Qed.

Lemma hour_mono t1 t2 : t1 ≤ t2 → epoch_day t1 = epoch_day t2 → hour t1 ≤ hour t2.
Proof.
  unfold hour, epoch_day, MICROS_PER_DAY, MICROS_PER_HOUR, MICROS_PER_SECOND.
  intros. Z.div_mod_to_equations. lia.
Qed.

End CalendarOrder.

(** The years of [datetime], in epoch milliseconds. *)
Lemma datetime_years x :
  Job.MINYEAR ≤ Calendar.year (get_timestamp x) ≤ Job.MAXYEAR ↔
  -62135596800000 ≤ x ≤ 253402300799999.
Proof.
  unfold Job.MINYEAR, Job.MAXYEAR, Calendar.year, get_timestamp.
  assert (∀ a b, a ≤ b →
            Calendar.year_of_day (Calendar.epoch_day (a * 1000))
            ≤ Calendar.year_of_day (Calendar.epoch_day (b * 1000))) as Hmono.
  { intros a b Hab. apply CalendarOrder.year_of_day_mono,
      CalendarOrder.epoch_day_mono. lia. }
  split.
  - intros [Hlo Hhi]. split.
    + destruct (decide (-62135596800000 ≤ x)) as [|Hlt]; [done|].
      pose proof (Hmono x (-62135596800001) ltac:(lia)) as H.
      change (Calendar.year_of_day (Calendar.epoch_day (-62135596800001 * 1000)))
        with 0 in H. lia.
    + destruct (decide (x ≤ 253402300799999)) as [|Hgt]; [done|].
      pose proof (Hmono 253402300800000 x ltac:(lia)) as H.
      change (Calendar.year_of_day (Calendar.epoch_day (253402300800000 * 1000)))
        with 10000 in H. lia.
  - intros [Hlo Hhi]. split.
    + pose proof (Hmono (-62135596800000) x Hlo) as H.
      change (Calendar.year_of_day (Calendar.epoch_day (-62135596800000 * 1000)))
        with 1 in H. lia.
    + pose proof (Hmono x 253402300799999 Hhi) as H.
      change (Calendar.year_of_day (Calendar.epoch_day (253402300799999 * 1000)))
        with 9999 in H. lia.
Qed.

(** X7. The calendar columns are in the order of the instants: of two
    timestamps the later one has the later (year, month, day, hour), read
    column by column. *)
Theorem decompose_monotone (ts1 ts2 : Z) :
  let c1 := decompose ts1 in
  let c2 := decompose ts2 in
  ts1 ≤ ts2 →
  Time.start_time c1 ≤ Time.start_time c2
  ∧ Time.year c1 ≤ Time.year c2
  ∧ (Time.year c1 = Time.year c2 → Time.month c1 ≤ Time.month c2)
  ∧ (Time.year c1 = Time.year c2 → Time.month c1 = Time.month c2 →
     Time.day c1 ≤ Time.day c2)
  ∧ (Time.year c1 = Time.year c2 → Time.month c1 = Time.month c2 →
     Time.day c1 = Time.day c2 → Time.hour c1 ≤ Time.hour c2).
Proof.
  cbv zeta. unfold decompose, calendar_columns, get_timestamp. simpl. intros Hle.
  assert (ts1 * 1000 ≤ ts2 * 1000) as Ht by lia.
  pose proof (CalendarOrder.epoch_day_mono _ _ Ht) as Hd.
  unfold Calendar.year, Calendar.month, Calendar.dayofmonth.
  split; [done|]. split; [by apply CalendarOrder.year_of_day_mono|].
  split; [by apply CalendarOrder.month_of_day_mono|].
  split; [by apply CalendarOrder.dayofmonth_of_day_mono|].
  intros Hy Hm Hdd. apply CalendarOrder.hour_mono; [done|].
  rewrite <- (CalendarFacts.days_from_civil_of_day (Calendar.epoch_day (ts1 * 1000))).
  rewrite <- (CalendarFacts.days_from_civil_of_day (Calendar.epoch_day (ts2 * 1000))).
  by rewrite Hy, Hm, Hdd.
Qed.

Module WeekFacts.
Import Calendar CalendarFacts.

(** The last day of a year of the era: day 364, or 365 before a leap
    February. *)
Lemma doy_of_tight doe :
  0 ≤ doe < DAYS_PER_ERA →
  doy_of doe ≤ 364 + ((yoe_of doe + 1) `div` 4 - yoe_of doe `div` 4)
                   - ((yoe_of doe + 1) `div` 100 - yoe_of doe `div` 100)
                   + ((yoe_of doe + 1) `div` 400 - yoe_of doe `div` 400).
Proof.
  unfold DAYS_PER_ERA, doy_of, yoe_of. intros H.
  Z.div_mod_to_equations. lia.
Qed.

Lemma year_end_bound d : d < days_from_civil (year_of_day d + 1) 1 1.
Proof.
  destruct (era_doe d) as [Hd0 Hdoe].
  pose proof (doy_of_tight _ Hdoe) as Htight.
  destruct (day_split d) as (era & yoe & doy & He & Hy & Hdy & Hyoe & Hdoy & Hd).
  rewrite Hy, Hdy in Htight.
  unfold days_from_civil, year_of_day, month_of_day, mp_of, DAYS_PER_ERA.
  cbv zeta. rewrite He, Hy, Hdy.
  rewrite (bool_decide_eq_true_2 (1 ≤ 2)) by lia.
  repeat case_bool_decide; Z.div_mod_to_equations; lia.
Qed.

Lemma year_length y :
  365 ≤ days_from_civil (y + 1) 1 1 - days_from_civil y 1 1 ≤ 366.
Proof.
  unfold days_from_civil, DAYS_PER_ERA. cbv zeta.
  rewrite (bool_decide_eq_true_2 (1 ≤ 2)) by lia.
  Z.div_mod_to_equations; lia.
Qed.

Lemma year_start_mono y y' :
  y ≤ y' → days_from_civil y 1 1 ≤ days_from_civil y' 1 1.
Proof.
  unfold days_from_civil, DAYS_PER_ERA. cbv zeta.
  rewrite (bool_decide_eq_true_2 (1 ≤ 2)) by lia.
  intros. Z.div_mod_to_equations; lia.
Qed.

(** The year of a day is the one whose 1 January .. 31 December hold it. *)
Lemma year_of_day_unique d y :
  days_from_civil y 1 1 ≤ d < days_from_civil (y + 1) 1 1 → year_of_day d = y.
Proof.
  intros [Hlo Hhi].
  pose proof (year_start_bound d) as Hs. pose proof (year_end_bound d) as He.
  destruct (decide (year_of_day d = y)) as [|Hne]; [done|]. exfalso.
  destruct (decide (year_of_day d < y)).
  - pose proof (year_start_mono (year_of_day d + 1) y ltac:(lia)). lia.
  - pose proof (year_start_mono (y + 1) (year_of_day d) ltac:(lia)). lia.
Qed.

(** The first 31 days of a year are its January. *)
Lemma january d :
  d - days_from_civil (year_of_day d) 1 1 ≤ 30 →
  month_of_day d = 1
  ∧ dayofmonth_of_day d = d - days_from_civil (year_of_day d) 1 1 + 1.
Proof.
  destruct (era_doe d) as [Hd0 Hdoe].
  pose proof (doy_of_tight _ Hdoe) as Htight.
  destruct (day_split d) as (era & yoe & doy & He & Hy & Hdy & Hyoe & Hdoy & Hd).
  rewrite Hy, Hdy in Htight.
  unfold days_from_civil, year_of_day, month_of_day, dayofmonth_of_day, mp_of,
    DAYS_PER_ERA.
  cbv zeta. rewrite He, Hy, Hdy.
  rewrite (bool_decide_eq_true_2 (1 ≤ 2)) by lia.
  repeat case_bool_decide; Z.div_mod_to_equations; lia.
Qed.

(** The last 31 days of a year are its December. *)
Lemma december d :
  days_from_civil (year_of_day d + 1) 1 1 - d ≤ 31 →
  month_of_day d = 12
  ∧ dayofmonth_of_day d = 32 - (days_from_civil (year_of_day d + 1) 1 1 - d).
Proof.
  destruct (era_doe d) as [Hd0 Hdoe].
  pose proof (doy_of_tight _ Hdoe) as Htight.
  destruct (day_split d) as (era & yoe & doy & He & Hy & Hdy & Hyoe & Hdoy & Hd).
  rewrite Hy, Hdy in Htight.
  unfold days_from_civil, year_of_day, month_of_day, dayofmonth_of_day, mp_of,
    DAYS_PER_ERA.
  cbv zeta. rewrite He, Hy, Hdy.
  rewrite (bool_decide_eq_true_2 (1 ≤ 2)) by lia.
  repeat case_bool_decide; Z.div_mod_to_equations; lia.
Qed.

(** Week 1 reaches back into the last days of December. *)
Lemma week_1 d :
  isoweek_of_day d = 1 →
  month_of_day d = 1 ∨ (month_of_day d = 12 ∧ 29 ≤ dayofmonth_of_day d).
Proof.
  unfold isoweek_of_day. cbv zeta.
  pose proof (isoweekday_of_day_range d) as Hwd.
  set (th := d - isoweekday_of_day d + 4) in *.
  pose proof (year_start_bound th) as Hs. pose proof (year_end_bound th) as He.
  pose proof (year_length (year_of_day th)) as Hlen.
  pose proof (year_length (year_of_day th - 1)) as Hprev.
  replace (year_of_day th - 1 + 1) with (year_of_day th) in Hprev by lia.
  intros Hweek.
  assert (0 ≤ th - days_from_civil (year_of_day th) 1 1 ≤ 6) as Hth
    by (Z.div_mod_to_equations; lia).
  destruct (decide (days_from_civil (year_of_day th) 1 1 ≤ d)) as [Hge|Hlt].
  - left. assert (year_of_day d = year_of_day th) as Hy
      by (apply year_of_day_unique; lia).
    apply january. rewrite Hy. lia.
  - right. assert (year_of_day d = year_of_day th - 1) as Hy
      by (apply year_of_day_unique;
          replace (year_of_day th - 1 + 1) with (year_of_day th) by lia; lia).
    destruct (december d) as [Hm Hd];
      [rewrite Hy; replace (year_of_day th - 1 + 1) with (year_of_day th) by lia; lia|].
    split; [done|]. rewrite Hd, Hy.
    replace (year_of_day th - 1 + 1) with (year_of_day th) by lia. lia.
Qed.

(** Weeks 52 and 53 reach into the first days of January. *)
Lemma week_52_53 d :
  52 ≤ isoweek_of_day d →
  month_of_day d = 12 ∨ (month_of_day d = 1 ∧ dayofmonth_of_day d ≤ 3).
Proof.
  unfold isoweek_of_day. cbv zeta.
  pose proof (isoweekday_of_day_range d) as Hwd.
  set (th := d - isoweekday_of_day d + 4) in *.
  pose proof (year_start_bound th) as Hs. pose proof (year_end_bound th) as He.
  pose proof (year_length (year_of_day th)) as Hlen.
  pose proof (year_length (year_of_day th + 1)) as Hnext.
  intros Hweek.
  assert (357 ≤ th - days_from_civil (year_of_day th) 1 1) as Hth
    by (Z.div_mod_to_equations; lia).
  destruct (decide (d < days_from_civil (year_of_day th + 1) 1 1)) as [Hlt|Hge].
  - left. assert (year_of_day d = year_of_day th) as Hy
      by (apply year_of_day_unique; lia).
    apply december. rewrite Hy. lia.
  - right. assert (year_of_day d = year_of_day th + 1) as Hy
      by (apply year_of_day_unique; lia).
    destruct (january d) as [Hm Hd]; [rewrite Hy; lia|].
    split; [done|]. rewrite Hd, Hy. lia.
Qed.

End WeekFacts.

(** X13. The [week] column is the ISO week and the [year] column the
    calendar year, so the two do not name a week together: a time row of
    week 1 is in January or on 29-31 December, a row of week 52 or 53 is in
    December or on 1-3 January, and both crossings occur. *)
Theorem week_and_year_columns :
  (∀ raw_ts,
     let c := decompose raw_ts in
     (Time.week c = 1 →
      Time.month c = 1 ∨ (Time.month c = 12 ∧ 29 ≤ Time.day c))
     ∧ (52 ≤ Time.week c →
        Time.month c = 12 ∨ (Time.month c = 1 ∧ Time.day c ≤ 3)))
  ∧ (∃ raw_ts, let c := decompose raw_ts in
       Time.year c = 2018 ∧ Time.month c = 12 ∧ Time.day c = 31 ∧ Time.week c = 1)
  ∧ (∃ raw_ts, let c := decompose raw_ts in
       Time.year c = 2021 ∧ Time.month c = 1 ∧ Time.day c = 3 ∧ Time.week c = 53).
Proof.
  split; [|split].
  - intros raw_ts. cbv zeta. unfold decompose, calendar_columns. simpl.
    split; [apply WeekFacts.week_1|apply WeekFacts.week_52_53].
  - by exists 1546214400000.
  - by exists 1609632000000.
Qed.

(** ** Further properties of the tables *)

Lemma left_join_row_length song_df e :
  length (left_join_row song_df e) = (1 `max` length (matching_songs song_df e))%nat.
Proof.
  unfold left_join_row. destruct (matching_songs song_df e) as [|s ms]; [done|].
  rewrite length_fmap. simpl. lia.
Qed.

Lemma left_join_length df song_df :
  length (left_join df song_df)
  = sum_list_with (λ e, 1 `max` length (matching_songs song_df e))%nat df.
Proof.
  unfold left_join. induction df as [|e df IH]; [done|]. csimpl.
  by rewrite length_app, left_join_row_length, IH.
Qed.

Lemma sum_list_with_ge_length {A} (f : A → nat) (l : list A) :
  (∀ x, 1 ≤ f x)%nat → (length l ≤ sum_list_with f l)%nat.
Proof.
  intros Hf. induction l as [|x l IH]; simpl; [lia|]. specialize (Hf x). lia.
Qed.

Lemma sum_list_with_ones {A} (f : A → nat) (l : list A) :
  (∀ x, x ∈ l → f x = 1%nat) → sum_list_with f l = length l.
Proof.
  induction l as [|x l IH]; intros Hf; simpl; [done|].
  rewrite (Hf x) by by left. rewrite IH; [done|]. intros. apply Hf. by right.
Qed.

(** A filter that all of whose hits are equal selects at most one row of a
    table without duplicates. *)
Lemma filter_at_most_one {A} (P : A → Prop) `{∀ x, Decision (P x)} (l : list A) :
  NoDup l → (∀ x y, x ∈ l → y ∈ l → P x → P y → x = y) →
  (length (filter P l) ≤ 1)%nat.
Proof.
  intros Hnd Heq. destruct (filter P l) as [|x k] eqn:Hf; [simpl; lia|].
  assert (x ∈ filter P l) as [HPx Hx]%list_elem_of_filter by (rewrite Hf; by left).
  rewrite (filter_unique P l x) in Hf; [by injection Hf as <-| done..|].
  intros y Hy HPy. by apply Heq.
Qed.

Lemma remove_dups_length `{EqDecision A} (l : list A) :
  (length (remove_dups l) ≤ length l)%nat.
Proof.
  apply submseteq_length, NoDup_submseteq; [apply NoDup_remove_dups|].
  intros x. by rewrite elem_of_remove_dups.
Qed.

Section MoreClaims.
Variable layout : Layout.
Hypothesis layout_perm : ∀ rows, mjoin (layout rows) ≡ₚ rows.


(** X4. Within the id range the fact table has one row for every NextSong
    event that matches no songs row and one row per matching songs row for
    every other NextSong event; it never has fewer rows than there are
    NextSong events. *)
Theorem songplays_row_count (log_data : list Event.t) (out : Lake.t) :
  let df := log_df log_data in
  let songplays := Lake.songplays (process_log_data layout log_data out) in
  in_id_range (layout (left_join df (Lake.songs out))) →
  length songplays
  = sum_list_with (λ e, 1 `max` length (matching_songs (Lake.songs out) e))%nat df
  ∧ (length (filter_page log_data) ≤ length songplays)%nat.
Proof.
  cbv zeta. intros Hrange.
  change (Lake.songplays (process_log_data layout log_data out))
    with (songplays_table layout (log_df log_data) (Lake.songs out)).
  rewrite (songplays_table_exact layout layout_perm)
    by (done || apply log_df_well_timed).
  rewrite length_fmap, (plays_table_length layout layout_perm), left_join_length.
  split; [done|].
  etrans; [|apply sum_list_with_ge_length; intros; lia].
  unfold log_df. by rewrite length_fmap.
Qed.

(** X5. When no two rows of the songs table written by [main] share a
    title, the fact table has, within the id range, exactly one row per
    NextSong event. *)
Theorem unique_titles_one_row_per_event
    (song_data : list Catalog.t) (log_data : list Event.t) (out : Lake.t) :
  let run := main layout song_data log_data out in
  (∀ s1 s2, s1 ∈ Lake.songs run → s2 ∈ Lake.songs run →
     is_Some (Songs.title s1) → Songs.title s1 = Songs.title s2 → s1 = s2) →
  in_id_range (layout (left_join (log_df log_data) (Lake.songs run))) →
  length (Lake.songplays run) = length (filter_page log_data).
Proof.
  cbv zeta. intros Htitles Hrange.
  change (Lake.songs (main layout song_data log_data out))
    with (songs_table song_data) in *.
  change (Lake.songplays (main layout song_data log_data out))
    with (songplays_table layout (log_df log_data) (songs_table song_data)).
  rewrite (songplays_table_exact layout layout_perm)
    by (done || apply log_df_well_timed).
  rewrite length_fmap, (plays_table_length layout layout_perm), left_join_length.
  rewrite sum_list_with_ones; [unfold log_df; by rewrite length_fmap|].
  intros e _.
  assert (length (matching_songs (songs_table song_data) e) ≤ 1)%nat; [|lia].
  apply filter_at_most_one; [apply NoDup_remove_dups|].
  intros s1 s2 Hs1 Hs2 [t1 [He1 Ht1]]%sql_eq_Some [t2 [He2 Ht2]]%sql_eq_Some.
  apply Htitles; [done..| |]; [by rewrite Ht1|]. congruence.
Qed.

End MoreClaims.


(** X3. [start_time] is a key of the time table: no two time rows share it,
    and the table has one row for each distinct [ts] among the NextSong
    events. *)
Theorem time_start_time_key (layout : Layout) (log_data : list Event.t) (out : Lake.t) :
  let time := Lake.time (process_log_data layout log_data out) in
  NoDup (Time.start_time <$> time)
  ∧ Time.start_time <$> time
    ≡ₚ remove_dups ((λ e, get_timestamp (Event.ts e)) <$> filter_page log_data)
  ∧ (length time ≤ length (filter_page log_data))%nat.
Proof.
  cbv zeta.
  change (Lake.time (process_log_data layout log_data out))
    with (time_table (log_df log_data)).
  assert (NoDup (Time.start_time <$> time_table (log_df log_data))) as Hnd.
  { apply NoDup_fmap_2_strong; [|apply time_table_NoDup].
    pose proof (log_df_well_timed log_data) as Hdf. rewrite list.Forall_forall in Hdf.
    intros t1 t2 (r1 & -> & Hr1)%elem_of_time_table (r2 & -> & Hr2)%elem_of_time_table Heq.
    rewrite (Hdf r1 Hr1), (Hdf r2 Hr2). by rewrite Heq. }
  split; [done|]. split.
  - apply NoDup_Permutation; [done|apply NoDup_remove_dups|].
    intros st. rewrite elem_of_remove_dups, !list_elem_of_fmap. split.
    + intros (t & -> & (r & -> & (e & -> & He & Hpage)%elem_of_log_df)%elem_of_time_table).
      exists e. split; [done|]. by apply elem_of_filter_page.
    + intros (e & -> & [He Hpage]%elem_of_filter_page).
      exists (decompose (Event.ts e)). split; [done|].
      apply elem_of_time_table. exists (with_time_columns e). split; [done|].
      apply elem_of_log_df. eauto.
  - unfold time_table, dropDuplicates, log_df.
    etrans; [apply remove_dups_length|]. by rewrite !length_fmap.
Qed.

(** X6. The users table holds exactly the distinct user columns of the
    NextSong events, so [userId] is not a key of it: two NextSong events of
    one [userId] with different [level]s give two users rows with that
    [userId]. *)
Theorem users_rows (layout : Layout) (log_data : list Event.t) (out : Lake.t) :
  let users := Lake.users (process_log_data layout log_data out) in
  (∀ u, u ∈ users ↔
     ∃ e, e ∈ log_data ∧ Event.page e = Some "NextSong"%string ∧ u = select_users e)
  ∧ (∀ e1 e2, e1 ∈ log_data → e2 ∈ log_data →
       Event.page e1 = Some "NextSong"%string → Event.page e2 = Some "NextSong"%string →
       Event.userId e1 = Event.userId e2 → Event.level e1 ≠ Event.level e2 →
       ∃ u1 u2, u1 ∈ users ∧ u2 ∈ users ∧ u1 ≠ u2
                ∧ Users.userId u1 = Event.userId e1 ∧ Users.userId u2 = Event.userId e1
                ∧ Users.level u1 = Event.level e1 ∧ Users.level u2 = Event.level e2).
Proof.
  cbv zeta.
  change (Lake.users (process_log_data layout log_data out))
    with (users_table (filter_page log_data)).
  assert (∀ u, u ∈ users_table (filter_page log_data) ↔
            ∃ e, e ∈ log_data ∧ Event.page e = Some "NextSong"%string
                 ∧ u = select_users e) as Hiff.
  { intros u. unfold users_table, dropDuplicates.
    rewrite elem_of_remove_dups, list_elem_of_fmap.
    setoid_rewrite elem_of_filter_page. naive_solver. }
  split; [done|].
  intros e1 e2 He1 He2 Hp1 Hp2 Hid Hlevel.
  exists (select_users e1), (select_users e2).
  repeat split; try (apply Hiff; eauto); try done.
  intros Heq. apply Hlevel. by injection Heq.
Qed.

(** ** The job on the two buckets: paths, reads, writes and aborts *)

Section JobFacts.
Local Open Scope string_scope.

Lemma append_inj (a x y : string) : a +:+ x = a +:+ y → x = y.
Proof. induction a as [|c a IH]; simpl; [done|]. intros [= H]. by apply IH. Qed.

Lemma append_ne (a x y : string) : x ≠ y → a +:+ x ≠ a +:+ y.
Proof. intros Hne Heq. by apply Hne, (append_inj a). Qed.

Lemma os_path_join_sep a b :
  Job.startswith_sep b = false → a = "" ∨ Job.endswith_sep a = true →
  Job.os_path_join a b = a +:+ b.
Proof.
  intros Hb Ha. unfold Job.os_path_join. rewrite Hb.
  destruct Ha as [->| ->]; [done|]. by rewrite orb_true_r.
Qed.

Lemma os_path_join_no_sep a b :
  Job.startswith_sep b = false → a ≠ "" → Job.endswith_sep a = false →
  Job.os_path_join a b = a +:+ "/" +:+ b.
Proof.
  intros Hb Ha Hsep. unfold Job.os_path_join. rewrite Hb, Hsep.
  by rewrite bool_decide_eq_false_2.
Qed.

Lemma with_ts_Some e ev :
  Job.with_ts e = Some ev →
  ∃ x, RawEvent.ts e = Some x
       ∧ (Job.MINYEAR ≤ Calendar.year (get_timestamp x) ≤ Job.MAXYEAR)%Z
       ∧ Event.ts ev = x ∧ Event.page ev = RawEvent.page e
       ∧ select_users ev = Job.select_users e.
Proof.
  unfold Job.with_ts. destruct (RawEvent.ts e) as [x|]; [|done]. simpl.
  case_bool_decide; [|done]. intros [= <-]. by exists x.
Qed.

(** The filtered rows after [get_timestamp]: the same user columns, all of
    page "NextSong". *)
Lemma with_ts_select_users df events :
  mapM Job.with_ts df = Some events →
  select_users <$> events = Job.select_users <$> df.
Proof.
  intros H%mapM_Some. induction H as [|e ev df events He _ IH]; [done|].
  csimpl. rewrite IH. f_equal.
  by apply with_ts_Some in He as (x & _ & _ & _ & _ & ->).
Qed.

Lemma with_ts_filter_page df events :
  mapM Job.with_ts (Job.filter_page df) = Some events → filter_page events = events.
Proof.
  intros H%mapM_Some. unfold filter_page.
  assert (Forall (λ e, sql_eq (RawEvent.page e) (Some "NextSong")) (Job.filter_page df))
    as Hall by (apply list.Forall_forall; by intros e [? ?]%list_elem_of_filter).
  induction H as [|e ev raw events He _ IH]; [done|].
  apply list.Forall_cons in Hall as [Hpage Hall].
  rewrite filter_cons_True, IH; [done..|].
  apply with_ts_Some in He as (x & _ & _ & _ & -> & _). done.
Qed.

Lemma songs_table_nonempty c catalog : songs_table (c :: catalog) ≠ [].
Proof.
  intros Hnil.
  assert (select_songs c ∈ songs_table (c :: catalog)) as Hin
    by (apply elem_of_remove_dups; by left).
  rewrite Hnil in Hin. by apply elem_of_nil in Hin.
Qed.

(** What [main] does on a catalog and a log that are there. *)
Lemma job_main_run layout (src : Job.source) (b : Job.bucket)
    (catalog : list Catalog.t) (log : list RawEvent.t) (events : list Event.t) :
  let run := main layout catalog events Lake.empty in
  Job.song_files src !! "s3a://udacity-dend/song_data/A/A/A/" = Some catalog →
  Job.log_files src !! "s3a://udacity-dend/log_data/2018/11/2018-11-12-events.json"
    = Some log →
  catalog ≠ [] → log ≠ [] →
  mapM Job.with_ts (Job.filter_page log) = Some events →
  Job.main layout src b
  = Job.Done
      (<["s3a://udacity-data-lake-adam-klus/songplays/"
         := Job.SongplaysTable (Lake.songplays run)]>
       (<["s3a://udacity-data-lake-adam-klus/time/" := Job.TimeTable (Lake.time run)]>
        (<["s3a://udacity-data-lake-adam-klus/users/" := Job.UsersTable (Lake.users run)]>
         (<["s3a://udacity-data-lake-adam-klus/artists/"
            := Job.ArtistsTable (Lake.artists run)]>
          (<["s3a://udacity-data-lake-adam-klus/songs/"
             := Job.SongsTable (Lake.songs run)]> b))))).
Proof.
  cbv zeta. intros Hsongs Hlog Hcat Hlogne Hts.
  unfold Job.main, Job.process_song_data, Job.process_log_data.
  change (Job.input_data +:+ "song_data/A/A/A/")
    with "s3a://udacity-dend/song_data/A/A/A/".
  change (Job.input_data +:+ "log_data/2018/11/2018-11-12-events.json")
    with "s3a://udacity-dend/log_data/2018/11/2018-11-12-events.json".
  rewrite Hsongs. destruct catalog as [|c catalog]; [done|].
  rewrite Hlog. destruct log as [|l log]; [done|].
  rewrite Hts.
  change (Job.output_data +:+ "songs/") with "s3a://udacity-data-lake-adam-klus/songs/".
  change (Job.output_data +:+ "artists/") with "s3a://udacity-data-lake-adam-klus/artists/".
  change (Job.os_path_join Job.output_data "users/")
    with "s3a://udacity-data-lake-adam-klus/users/".
  change (Job.os_path_join Job.output_data "time/")
    with "s3a://udacity-data-lake-adam-klus/time/".
  change (Job.os_path_join Job.output_data "songs/")
    with "s3a://udacity-data-lake-adam-klus/songs/".
  change (Job.os_path_join Job.output_data "songplays/")
    with "s3a://udacity-data-lake-adam-klus/songplays/".
  cbv zeta.
  rewrite !lookup_insert_ne by done. rewrite lookup_insert_eq.
  pose proof (songs_table_nonempty c catalog) as Hne.
  destruct (songs_table (c :: catalog)) as [|s rows] eqn:Hst; [done|].
  unfold main, process_log_data, process_song_data, users_table. simpl.
  rewrite (with_ts_filter_page _ _ Hts), (with_ts_select_users _ _ Hts), Hst.
  done.
Qed.

End JobFacts.

Section JobClaims.
Variable layout : Layout.
Local Open Scope string_scope.



(** X10. [process_song_data] writes the songs table at
    [output_data + "songs/"] and [process_log_data] reads it at
    [os.path.join(output_data, "songs/")].  When [output_data] ends with
    "/" (or is empty) the table read is the one just written; otherwise the
    read goes to [output_data + "/songs/"], which the catalog step has not
    touched, and with nothing there the log step aborts, whatever the log. *)
Theorem job_songs_path (src : Job.source) (input_data output_data : string)
    (b b1 : Job.bucket) :
  let read_path := Job.os_path_join output_data "songs/" in
  Job.process_song_data src input_data output_data b = Job.Done b1 →
  (output_data = "" ∨ Job.endswith_sep output_data = true →
     ∃ catalog, Job.song_files src !! (input_data +:+ "song_data/A/A/A/") = Some catalog
                ∧ b1 !! read_path = Some (Job.SongsTable (songs_table catalog)))
  ∧ (output_data ≠ "" → Job.endswith_sep output_data = false →
       read_path = output_data +:+ "/songs/"
       ∧ b1 !! read_path = b !! read_path
       ∧ (b !! read_path = None →
          ∃ e b2, Job.process_log_data layout src input_data output_data b1
                  = Job.Aborted e b2)).
Proof.
  cbv zeta. unfold Job.process_song_data.
  destruct (Job.song_files src !! (input_data +:+ "song_data/A/A/A/"))
    as [[|c catalog]|] eqn:Hsrc; intros [= <-].
  split.
  - intros Hsep. exists (c :: catalog). split; [done|].
    rewrite os_path_join_sep by done.
    rewrite lookup_insert_ne by by apply append_ne.
    by rewrite lookup_insert_eq.
  - intros Hne Hsep.
    assert (∀ name, Job.startswith_sep name = false →
              Job.os_path_join output_data name = output_data +:+ "/" +:+ name)
      as Hjoin by (intros; by apply os_path_join_no_sep).
    rewrite (Hjoin "songs/") by done.
    split; [done|]. split.
    { by rewrite !lookup_insert_ne by by apply append_ne. }
    intros Hnone. unfold Job.process_log_data.
    rewrite (Hjoin "users/"), (Hjoin "time/"), (Hjoin "songs/"),
      (Hjoin "songplays/") by done.
    destruct (Job.log_files src !! _) as [[|l log]|]; cbv zeta;
      [eauto..| |eauto].
    destruct (mapM Job.with_ts _) as [events|]; [|eauto].
    rewrite !lookup_insert_ne by by apply append_ne.
    rewrite Hnone. eauto.
Qed.

(** X11. Whether it completes or aborts, [main] changes nothing of the
    output bucket outside the five table directories. *)
Theorem job_main_frame (src : Job.source) (b : Job.bucket) (path : string) :
  path ∉ ["s3a://udacity-data-lake-adam-klus/songs/";
          "s3a://udacity-data-lake-adam-klus/artists/";
          "s3a://udacity-data-lake-adam-klus/users/";
          "s3a://udacity-data-lake-adam-klus/time/";
          "s3a://udacity-data-lake-adam-klus/songplays/"] →
  Job.bucket_of (Job.main layout src b) !! path = b !! path.
Proof.
  intros Hpath.
  repeat (apply not_elem_of_cons in Hpath as [? Hpath]).
  unfold Job.main, Job.process_song_data, Job.process_log_data.
  change (Job.output_data +:+ "songs/") with "s3a://udacity-data-lake-adam-klus/songs/".
  change (Job.output_data +:+ "artists/") with "s3a://udacity-data-lake-adam-klus/artists/".
  change (Job.os_path_join Job.output_data "users/")
    with "s3a://udacity-data-lake-adam-klus/users/".
  change (Job.os_path_join Job.output_data "time/")
    with "s3a://udacity-data-lake-adam-klus/time/".
  change (Job.os_path_join Job.output_data "songs/")
    with "s3a://udacity-data-lake-adam-klus/songs/".
  change (Job.os_path_join Job.output_data "songplays/")
    with "s3a://udacity-data-lake-adam-klus/songplays/".
  destruct (Job.song_files src !! _) as [[|c catalog]|]; [done| |done]. cbv zeta.
  destruct (Job.log_files src !! _) as [[|l log]|]; cbv zeta; cbn [Job.bucket_of];
    [by rewrite !lookup_insert_ne by done| |by rewrite !lookup_insert_ne by done].
  destruct (mapM Job.with_ts _) as [events|]; cbn [Job.bucket_of];
    [|by rewrite !lookup_insert_ne by done].
  rewrite (lookup_insert_ne _ "s3a://udacity-data-lake-adam-klus/time/"
             "s3a://udacity-data-lake-adam-klus/songs/") by done.
  rewrite (lookup_insert_ne _ "s3a://udacity-data-lake-adam-klus/users/"
             "s3a://udacity-data-lake-adam-klus/songs/") by done.
  rewrite (lookup_insert_ne _ "s3a://udacity-data-lake-adam-klus/artists/"
             "s3a://udacity-data-lake-adam-klus/songs/") by done.
  rewrite lookup_insert_eq.
  destruct (songs_table (c :: catalog)); cbn [Job.bucket_of];
    by rewrite !lookup_insert_ne by done.
Qed.

(** X12. [get_timestamp] returns for a [ts] exactly when the [ts] is there
    and lies between 0001-01-01 00:00:00.000 and 9999-12-31 23:59:59.999
    UTC, in epoch milliseconds. *)
Theorem get_timestamp_range (e : RawEvent.t) :
  is_Some (Job.with_ts e) ↔
  ∃ x, RawEvent.ts e = Some x ∧ (-62135596800000 ≤ x ≤ 253402300799999)%Z.
Proof.
  unfold Job.with_ts. destruct (RawEvent.ts e) as [x|]; simpl.
  - case_bool_decide as Hyear; split.
    + intros _. exists x. split; [done|]. by apply datetime_years.
    + by intros _.
    + by intros [? ?].
    + intros (x' & [= <-] & Hrange). by apply datetime_years in Hrange.
  - split; [by intros [? ?]|by intros (x & ? & _)].
Qed.

End JobClaims.

(** ** The further properties on the sample inputs *)


(** X4 on the sample catalog that lists one song twice: one event, two
    fact rows. *)
Lemma songplays_row_count_witness :
  length (Lake.songplays (process_log_data single_partition [Sample.event_10]
            (process_song_data [Sample.song_S1; Sample.song_S1_again] Lake.empty)))
  = 2%nat.
Proof.
  refine (proj1 (songplays_row_count single_partition single_partition_perm
                   [Sample.event_10]
                   (process_song_data [Sample.song_S1; Sample.song_S1_again] Lake.empty)
                   _)).
  id_range.
Defined.

(** X5 on the sample catalog of two songs with two titles. *)
Lemma unique_titles_one_row_per_event_witness :
  length (Lake.songplays (main partition_per_row SampleJob.catalog
                            [Sample.event_home; Sample.event_10; Sample.event_26]
                            Lake.empty))
  = 2%nat.
Proof.
  refine (unique_titles_one_row_per_event partition_per_row partition_per_row_perm
            SampleJob.catalog [Sample.event_home; Sample.event_10; Sample.event_26]
            Lake.empty _ _).
  - intros s1 s2 Hs1 Hs2 _. vm_compute in Hs1, Hs2.
    apply elem_of_cons in Hs1 as [->|Hs1], Hs2 as [->|Hs2];
      try apply list_elem_of_singleton in Hs1 as ->;
      try apply list_elem_of_singleton in Hs2 as ->; done.
  - id_range.
Defined.

(** X7 on two sample timestamps. *)
Lemma decompose_monotone_witness :
  Time.year (decompose 1541990258796) ≤ Time.year (decompose 1546300800000).
Proof.
  refine (proj1 (proj2 (decompose_monotone 1541990258796 1546300800000 _))). lia.
Defined.


(** X10 with [output_data] "out", which does not end with "/": the songs
    table is written at "outsongs/" and looked for at "out/songs/". *)
Lemma job_songs_path_witness :
  ∃ e b2,
    Job.process_log_data single_partition
      (SampleJob.source_at "in/" SampleJob.log) "in/" "out"
      (<["outartists/"%string := Job.ArtistsTable (artists_table SampleJob.catalog)]>
         (<["outsongs/"%string := Job.SongsTable (songs_table SampleJob.catalog)]> ∅))
    = Job.Aborted e b2.
Proof.
  refine (proj2 (proj2 (proj2 (job_songs_path single_partition
            (SampleJob.source_at "in/" SampleJob.log) "in/" "out" ∅ _ _) _ _)) _).
  - unfold Job.process_song_data, SampleJob.source_at. simpl.
    by rewrite lookup_singleton_eq.
  - done.
  - reflexivity.
  - apply lookup_empty.
Defined.

(** X11 on the sample bucket: a directory beside the five is left alone. *)
Lemma job_main_frame_witness :
  Job.bucket_of
    (Job.main single_partition
       (SampleJob.source_at "s3a://udacity-dend/" SampleJob.log)
       {[ "s3a://udacity-data-lake-adam-klus/songs_backup/"%string
          := Job.SongsTable [] ]})
  !! "s3a://udacity-data-lake-adam-klus/songs_backup/"%string
  = Some (Job.SongsTable []).
Proof.
  rewrite (job_main_frame single_partition).
  - apply lookup_singleton_eq.
  - repeat (apply not_elem_of_cons; split; [done|]). apply not_elem_of_nil.
Defined.
